(** * chatwithsite: the crawl-to-retrieval core

    A shallow embedding of [app/crawler.py], [app/vector_store.py] and
    [app/chat_service.py], together with the part of CPython's
    [urllib.parse] (3.11) that [WebsiteCrawler] calls, and the properties
    of the design document checked against them. *)

From Stdlib Require Import Ascii String ZArith Lia.
From stdpp Require Import gmap strings list sorting.

Local Open Scope Z_scope.

(** Python [str] values are sequences of characters; the characters are
    the 256 code points of [ascii]. *)
Abbreviation pystr := (list ascii).

Definition str (s : string) : pystr := list_ascii_of_string s.
Arguments str : simpl never.

(** ** The [str] methods the program uses *)
Module PyStr.

(** [s.find(c)]: index of the first occurrence; Python's [-1] is [None]. *)
Fixpoint find (c : ascii) (s : pystr) : option nat :=
  match s with
  | [] => None
  | x :: s' => if decide (x = c) then Some 0%nat else S <$> find c s'
  end.

(** [s.find(c, start)]. *)
Definition find_from (c : ascii) (start : nat) (s : pystr) : option nat :=
  (λ i, (start + i)%nat) <$> find c (drop start s).

(** [s.rfind(c)]. *)
Fixpoint rfind (c : ascii) (s : pystr) : option nat :=
  match s with
  | [] => None
  | x :: s' =>
      match rfind c s' with
      | Some i => Some (S i)
      | None => if decide (x = c) then Some 0%nat else None
      end
  end.

(** [c in s] for a one-character [c]. *)
Definition contains (c : ascii) (s : pystr) : bool := bool_decide (c ∈ s).

(** [s[i:j]]. *)
Definition slice (i j : nat) (s : pystr) : pystr := take (j - i) (drop i s).

(** [s.split(c, 1)] when [c in s]: the text before and after the first [c]. *)
Definition split1 (c : ascii) (s : pystr) : pystr * pystr :=
  match find c s with
  | Some i => (take i s, drop (S i) s)
  | None => (s, [])
  end.

(** [s.split(c)]: all the fields, at least one. *)
Fixpoint split (c : ascii) (s : pystr) : list pystr :=
  match s with
  | [] => [[]]
  | x :: s' =>
      if decide (x = c) then [] :: split c s'
      else match split c s' with
           | f :: fs => (x :: f) :: fs
           | [] => [[x]]
           end
  end.

(** [c.join(parts)]. *)
Fixpoint join (c : ascii) (parts : list pystr) : pystr :=
  match parts with
  | [] => []
  | [p] => p
  | p :: ps => p ++ c :: join c ps
  end.

(** [s.lstrip(chars)] and [s.strip(chars)] for a set of characters given
    as a predicate. *)
Fixpoint lstrip (p : ascii → bool) (s : pystr) : pystr :=
  match s with
  | x :: s' => if p x then lstrip p s' else s
  | [] => []
  end.

Definition rstrip (p : ascii → bool) (s : pystr) : pystr :=
  reverse (lstrip p (reverse s)).

Definition strip (p : ascii → bool) (s : pystr) : pystr :=
  rstrip p (lstrip p s).

(** [s.replace(c, "")]. *)
Definition remove (c : ascii) (s : pystr) : pystr :=
  filter (λ x, x ≠ c) s.

Definition code (c : ascii) : nat := nat_of_ascii c.

Definition is_upper (c : ascii) : bool :=
  (65 <=? code c)%nat && (code c <=? 90)%nat.
Definition is_lower (c : ascii) : bool :=
  (97 <=? code c)%nat && (code c <=? 122)%nat.
Definition is_digit (c : ascii) : bool :=
  (48 <=? code c)%nat && (code c <=? 57)%nat.

(** [c.isascii() and c.isalpha()]. *)
Definition is_ascii_alpha (c : ascii) : bool := is_upper c || is_lower c.

(** [s.isascii()]. *)
Definition isascii (s : pystr) : bool :=
  forallb (λ c, (code c <? 128)%nat) s.

(** [s.lower()], on the ASCII letters. *)
Definition lower_char (c : ascii) : ascii :=
  if is_upper c then ascii_of_nat (code c + 32) else c.
Definition lower (s : pystr) : pystr := lower_char <$> s.

(** [s.endswith(c)]. *)
Definition endswith (c : ascii) (s : pystr) : bool :=
  bool_decide (last s = Some c).

(** [s[:-1]]. *)
Definition drop_last (s : pystr) : pystr := removelast s.

End PyStr.

(** ** [urllib.parse]

    The library functions [_normalize_url], [_is_same_domain] and
    [crawl_page] call.  Two validations of the network location depend on
    the Unicode database and on [ipaddress]; they are taken as the two
    fields of [HostChecks] ([true]: the check passes, [false]: it raises
    [ValueError]). *)
Module Urllib.
Import PyStr.

Record HostChecks := {
  (** [_checknetloc] on a non-ASCII network location *)
  nfkc_netloc_ok : pystr → bool;
  (** [_check_bracketed_netloc] *)
  bracketed_netloc_ok : pystr → bool
}.

(** Validations that accept every network location. *)
Definition lenient : HostChecks :=
  {| nfkc_netloc_ok := λ _, true; bracketed_netloc_ok := λ _, true |}.

Definition uses_relative : list pystr :=
  str <$> [""; "ftp"; "http"; "gopher"; "nntp"; "imap";
           "wais"; "file"; "https"; "shttp"; "mms";
           "prospero"; "rtsp"; "rtspu"; "sftp";
           "svn"; "svn+ssh"; "ws"; "wss"]%string.

Definition uses_netloc : list pystr :=
  str <$> [""; "ftp"; "http"; "gopher"; "nntp"; "telnet";
           "imap"; "wais"; "file"; "mms"; "https"; "shttp";
           "snews"; "prospero"; "rtsp"; "rtspu"; "rsync";
           "svn"; "svn+ssh"; "sftp"; "nfs"; "git"; "git+ssh";
           "ws"; "wss"]%string.

Definition uses_params : list pystr :=
  str <$> [""; "ftp"; "hdl"; "prospero"; "http"; "imap";
           "https"; "shttp"; "rtsp"; "rtspu"; "sip"; "sips";
           "mms"; "sftp"; "tel"]%string.

(** [c in scheme_chars] *)
Definition scheme_char (c : ascii) : bool :=
  is_lower c || is_upper c || is_digit c
  || bool_decide (c = "+"%char) || bool_decide (c = "-"%char)
  || bool_decide (c = "."%char).

(** [c in _WHATWG_C0_CONTROL_OR_SPACE] *)
Definition c0_control_or_space (c : ascii) : bool := (code c <=? 32)%nat.

(** [for b in _UNSAFE_URL_BYTES_TO_REMOVE: s = s.replace(b, "")] *)
Definition remove_unsafe (s : pystr) : pystr :=
  remove "010"%char (remove "013"%char (remove "009"%char s)).

Record SplitResult := {
  s_scheme : pystr; s_netloc : pystr; s_path : pystr;
  s_query : pystr; s_fragment : pystr
}.

Record ParseResult := {
  scheme : pystr; netloc : pystr; path : pystr;
  params : pystr; query : pystr; fragment : pystr
}.

Definition _splitnetloc (url : pystr) (start : nat) : pystr * pystr :=
  let delim :=
    foldl (λ delim c,
             match find_from c start url with
             | Some wdelim => Nat.min delim wdelim
             | None => delim
             end) (length url) (str "/?#") in
  (slice start delim url, drop delim url).

Definition _splitparams (url : pystr) : pystr * pystr :=
  if contains "/" url then
    match find_from ";" (default 0%nat (rfind "/" url)) url with
    | None => (url, [])
    | Some i => (take i url, drop (S i) url)
    end
  else
    match find ";" url with
    | Some i => (take i url, drop (S i) url)
    | None => (url, [])
    end.

Section Parse.
Variable checks : HostChecks.

Definition _checknetloc (netloc : pystr) : bool :=
  if bool_decide (netloc = []) || isascii netloc then true
  else nfkc_netloc_ok checks netloc.

(** The scheme of [urlsplit]: the text before the first [:], when it
    starts with an ASCII letter and is made of [scheme_chars]. *)
Definition split_scheme (url scheme : pystr) : pystr * pystr :=
  match find ":" url with
  | Some (S i') =>
      let i := S i' in
      if is_ascii_alpha (default "000"%char (head url))
         && forallb scheme_char (take i url)
      then (lower (take i url), drop (S i) url)
      else (scheme, url)
  | _ => (scheme, url)
  end.

(** The two tests on brackets in [urlsplit]; [false] is
    [ValueError("Invalid IPv6 URL")] or the error of
    [_check_bracketed_netloc]. *)
Definition brackets_ok (netloc : pystr) : bool :=
  if (contains "[" netloc && negb (contains "]" netloc))
     || (contains "]" netloc && negb (contains "[" netloc))
  then false
  else if contains "[" netloc && contains "]" netloc
  then bracketed_netloc_ok checks netloc
  else true.

(** The block [if url[:2] == '//'] of [urlsplit]. *)
Definition split_netloc (url : pystr) : option (pystr * pystr) :=
  if bool_decide (take 2 url = str "//") then
    let '(netloc, url) := _splitnetloc url 2 in
    if brackets_ok netloc then Some (netloc, url) else None
  else Some ([], url).

(** [if c in url: url, rest = url.split(c, 1)] *)
Definition split_at (c : ascii) (url : pystr) : pystr * pystr :=
  if contains c url then split1 c url else (url, []).

(** [urlsplit(url, scheme)]; [None] is [ValueError]. *)
Definition urlsplit (url scheme : pystr) : option SplitResult :=
  let url := lstrip c0_control_or_space url in
  let scheme := strip c0_control_or_space scheme in
  let url := remove_unsafe url in
  let scheme := remove_unsafe scheme in
  let '(scheme, url) := split_scheme url scheme in
  '(netloc, url) ← split_netloc url;
  let '(url, fragment) := split_at "#" url in
  let '(url, query) := split_at "?" url in
  if _checknetloc netloc then
    Some {| s_scheme := scheme; s_netloc := netloc; s_path := url;
            s_query := query; s_fragment := fragment |}
  else None.

(** [urlparse(url, scheme)] *)
Definition urlparse_with (url scheme : pystr) : option ParseResult :=
  r ← urlsplit url scheme;
  let '(url, params) :=
    if bool_decide (s_scheme r ∈ uses_params) && contains ";" (s_path r)
    then _splitparams (s_path r)
    else (s_path r, []) in
  Some {| scheme := s_scheme r; netloc := s_netloc r; path := url;
          params := params; query := s_query r;
          fragment := s_fragment r |}.

(** [urlparse(url)] *)
Definition urlparse (url : pystr) : option ParseResult :=
  urlparse_with url [].

(** [urlunsplit((scheme, netloc, url, query, fragment))] *)
Definition urlunsplit (scheme netloc url query fragment : pystr) : pystr :=
  let url :=
    if negb (bool_decide (netloc = []))
       || (negb (bool_decide (scheme = []))
           && bool_decide (scheme ∈ uses_netloc)
           && negb (bool_decide (take 2 url = str "//")))
    then
      let url :=
        if negb (bool_decide (url = []))
           && negb (bool_decide (take 1 url = str "/"))
        then "/"%char :: url else url in
      str "//" ++ netloc ++ url
    else url in
  let url := if bool_decide (scheme = []) then url
             else scheme ++ ":"%char :: url in
  let url := if bool_decide (query = []) then url
             else url ++ "?"%char :: query in
  if bool_decide (fragment = []) then url
  else url ++ "#"%char :: fragment.

(** [urlunparse((scheme, netloc, url, params, query, fragment))] *)
Definition urlunparse (r : ParseResult) : pystr :=
  let url := if bool_decide (params r = []) then path r
             else path r ++ ";"%char :: params r in
  urlunsplit (scheme r) (netloc r) url (query r) (fragment r).

(** [segments[1:-1] = filter(None, segments[1:-1])] *)
Definition drop_empty_inner (segments : list pystr) : list pystr :=
  match segments with
  | x :: (_ :: _) as rest =>
      x :: filter (λ s, s ≠ []) (removelast rest) ++ [List.last rest []]
  | _ => segments
  end.

(** The loop of [urljoin] over the segments: [..] pops, [.] is skipped. *)
Definition resolve_segments (segments : list pystr) : list pystr :=
  foldl (λ resolved_path seg,
           if bool_decide (seg = str "..") then removelast resolved_path
           else if bool_decide (seg = str ".") then resolved_path
           else resolved_path ++ [seg]) [] segments.

(** [urljoin(base, url)] on two [str] arguments; [None] is [ValueError]. *)
Definition urljoin (base url : pystr) : option pystr :=
  if bool_decide (base = []) then Some url
  else if bool_decide (url = []) then Some base
  else
    b ← urlparse_with base [];
    u ← urlparse_with url (scheme b);
    if negb (bool_decide (scheme u = scheme b))
       || negb (bool_decide (scheme u ∈ uses_relative))
    then Some url
    else if bool_decide (scheme u ∈ uses_netloc)
            && negb (bool_decide (netloc u = []))
    then Some (urlunparse u)
    else
      let netloc' :=
        if bool_decide (scheme u ∈ uses_netloc) then netloc b
        else netloc u in
      if bool_decide (path u = []) && bool_decide (params u = []) then
        Some (urlunparse
                {| scheme := scheme u; netloc := netloc'; path := path b;
                   params := params b;
                   query := if bool_decide (query u = []) then query b
                            else query u;
                   fragment := fragment u |})
      else
        let base_parts := split "/" (path b) in
        let base_parts :=
          if bool_decide (List.last base_parts [] = []) then base_parts
          else removelast base_parts in
        let segments :=
          if bool_decide (take 1 (path u) = str "/")
          then split "/" (path u)
          else drop_empty_inner (base_parts ++ split "/" (path u)) in
        let resolved_path := resolve_segments segments in
        let resolved_path :=
          if bool_decide (List.last segments [] ∈ [str "."; str ".."])
          then resolved_path ++ [[]] else resolved_path in
        let joined := join "/" resolved_path in
        Some (urlunparse
                {| scheme := scheme u; netloc := netloc';
                   path := if bool_decide (joined = []) then str "/"
                           else joined;
                   params := params u; query := query u;
                   fragment := fragment u |}).

End Parse.
End Urllib.

Import PyStr Urllib.

(** ** Values handed over by the page fetcher

    [crawl4ai] delivers the links of a page as loosely typed data: a [dict]
    of lists, a list, or nothing, with entries that are strings or records.
    A [dict] is the list of its items in insertion order. *)
#[local] Set Warnings "-register-all".
Inductive PyVal :=
| PNone
| PBool (b : bool)
| PInt (z : Z)
| PStr (s : pystr)
| PList (l : list PyVal)
| PDict (d : list (pystr * PyVal)).

(** Truth value of an object ([if v], [not v]). *)
Definition truthy (v : PyVal) : bool :=
  match v with
  | PNone => false
  | PBool b => b
  | PInt z => negb (z =? 0)
  | PStr s => negb (bool_decide (s = []))
  | PList l => negb (bool_decide (length l = 0%nat))
  | PDict d => negb (bool_decide (length d = 0%nat))
  end.

(** [k in d] and [d[k]] ([None]: [KeyError]). *)
Definition has_key (d : list (pystr * PyVal)) (k : pystr) : bool :=
  bool_decide (k ∈ d.*1).

Fixpoint getitem {V} (d : list (pystr * V)) (k : pystr) : option V :=
  match d with
  | [] => None
  | (k', v) :: d' => if decide (k' = k) then Some v else getitem d' k
  end.

(** The result object of [AsyncWebCrawler.arun]. *)
Record CrawlResult := {
  success : bool;
  url : pystr;
  markdown : pystr;
  metadata : option (list (pystr * PyVal));
  links : PyVal
}.

(** [result.url], for the places where [url] names an argument. *)
Definition result_url (result : CrawlResult) : pystr := url result.

(** ** Link extraction: the body of the [try] block as a computation that
    appends to [links] and may raise *)
Module Extract.

(** A computation over the local list [links]; the first component is
    [None] when an exception was raised. *)
Definition M (A : Type) : Type := list PyVal → option A * list PyVal.

Definition ret {A} (a : A) : M A := λ links, (Some a, links).

Definition bind {A B} (m : M A) (f : A → M B) : M B :=
  λ links, match m links with
           | (Some a, links') => f a links'
           | (None, links') => (None, links')
           end.

(** [links.append(v)] *)
Definition append (v : PyVal) : M unit := λ links, (Some (), links ++ [v]).

(** [d[k]], raising [KeyError] *)
Definition subscript (d : list (pystr * PyVal)) (k : pystr) : M PyVal :=
  λ links, (getitem d k, links).

(** [for x in l: body x] *)
Fixpoint for_each {A} (l : list A) (body : A → M unit) : M unit :=
  match l with
  | [] => ret ()
  | x :: l' => bind (body x) (λ _, for_each l' body)
  end.

End Extract.

#[global] Instance extract_ret : MRet Extract.M := @Extract.ret.
#[global] Instance extract_bind : MBind Extract.M :=
  λ A B f m, Extract.bind m f.

(** The statement repeated three times in [_extract_links_from_result]:
    a record with an [href] gives its [href], a string gives itself. *)
Definition collect_link (link : PyVal) : Extract.M unit :=
  match link with
  | PDict d =>
      if has_key d (str "href") then
        (href ← Extract.subscript d (str "href"); Extract.append href)
      else Extract.ret ()
  | PStr _ => Extract.append link
  | _ => Extract.ret ()
  end.

Definition extract_try_body (result_links : PyVal) : Extract.M unit :=
  match result_links with
  | PDict d =>
      (if has_key d (str "internal") then
         (links_list ← Extract.subscript d (str "internal");
          match links_list with
          | PList l => Extract.for_each l collect_link
          | _ => Extract.ret ()
          end)
       else Extract.ret ());;
      Extract.for_each d
        (λ '(key, value),
           match value with
           | PList l =>
               if negb (bool_decide (key = str "internal"))
               then Extract.for_each l collect_link
               else Extract.ret ()
           | _ => Extract.ret ()
           end)
  | PList l => Extract.for_each l collect_link
  | _ => Extract.ret ()
  end.

(** [_extract_links_from_result]: the links, and whether the [except]
    branch ran ([logger.error]). *)
Definition extract_links_outcome (result : CrawlResult) : list PyVal * bool :=
  if negb (truthy (links result)) then ([], false)
  else
    match extract_try_body (links result) [] with
    | (Some _, links) => (links, false)
    | (None, links) => (links, true)
    end.

Definition _extract_links_from_result (result : CrawlResult) : list PyVal :=
  (extract_links_outcome result).1.

(** ** [WebsiteCrawler] *)

(** An element of [crawled_data]. *)
Record PageData := {
  page_url : pystr;
  content : pystr;
  title : PyVal;
  depth : Z
}.

(** The attributes of a [WebsiteCrawler].  [requests] is not an attribute
    of the class: it records the [url] argument of every call to
    [crawler.arun], oldest first. *)
Record WebsiteCrawler := {
  base_url : pystr;
  max_depth : Z;
  max_pages : Z;
  visited_urls : gset pystr;
  crawled_data : list PageData;
  base_domain : pystr;
  indexed_count : Z;
  requests : list pystr
}.

(** The value returned by [crawl_website]: the [dict] with the keys
    [data], [indexed_count], [visited_count] and [urls_visited]. *)
Inductive RetVal :=
| RData (pages : list PageData)
| RInt (n : Z)
| RUrls (urls : list pystr).

(** The three figures written to the log when the loop has ended. *)
Record CompletionLog := {
  log_pages_indexed : Z;
  log_urls_visited : Z;
  log_max_depth : Z
}.

(** [max([...]) if xs else 0] *)
Definition max_or_zero (xs : list Z) : Z :=
  match xs with
  | [] => 0
  | x :: xs' => foldl Z.max x xs'
  end.

Section Crawler.
(** The library validations of [urllib.parse]. *)
Variable checks : HostChecks.
(** The page fetcher [crawler.arun(url=..., config=run_config)]: its
    answer may depend on the requests made before; [None] is an
    exception. *)
Variable arun : list pystr → pystr → option CrawlResult.

(** [WebsiteCrawler(base_url, max_depth, max_pages)]; [urlparse] may
    raise [ValueError]. *)
Definition init (base_url : pystr) (max_depth max_pages : Z)
  : option WebsiteCrawler :=
  parsed ← urlparse checks base_url;
  Some {| base_url := base_url; max_depth := max_depth;
          max_pages := max_pages; visited_urls := ∅; crawled_data := [];
          base_domain := netloc parsed; indexed_count := 0;
          requests := [] |}.

Definition _is_same_domain (self : WebsiteCrawler) (url : pystr) : bool :=
  match urlparse checks url with
  | Some parsed => bool_decide (netloc parsed = base_domain self)
  | None => false
  end.

Definition _normalize_url (url : pystr) : pystr :=
  match urlparse checks url with
  | Some parsed =>
      let normalized := scheme parsed ++ str "://" ++ netloc parsed
                        ++ path parsed in
      if endswith "/" normalized && (1 <? Z.of_nat (length (path parsed)))
      then drop_last normalized
      else normalized
  | None => url
  end.

(** [urljoin(url, link)] for the [link] values link extraction can
    give: an empty base returns [link] whatever it is, a false [link]
    returns the base, any other mix of [str] and non-[str] raises
    [TypeError]. *)
Definition urljoin_val (base : pystr) (link : PyVal) : option PyVal :=
  if bool_decide (base = []) then Some link
  else if negb (truthy link) then Some (PStr base)
  else match link with
       | PStr l => PStr <$> urljoin checks base l
       | _ => None
       end.

(** One round of the loop over [raw_links] in [crawl_page]: the
    absolute URL to keep, if any.  An [absolute_url] that is not a
    [str] makes [urlparse] raise inside [_is_same_domain], which answers
    [False]. *)
Definition internal_link (self : WebsiteCrawler) (url : pystr)
    (link : PyVal) : option pystr :=
  match urljoin_val url link with
  | Some (PStr absolute_url) =>
      if _is_same_domain self absolute_url then
        let normalized_link := _normalize_url absolute_url in
        if bool_decide (normalized_link ∉ visited_urls self)
        then Some absolute_url
        else None
      else None
  | _ => None
  end.

(** [result.metadata.get('title', '') if result.metadata else ''] *)
Definition title_of (result : CrawlResult) : PyVal :=
  match metadata result with
  | Some (_ :: _ as d) => default (PStr []) (getitem d (str "title"))
  | _ => PStr []
  end.

Definition mark_visited (self : WebsiteCrawler) (normalized_url : pystr)
  : WebsiteCrawler :=
  {| base_url := base_url self; max_depth := max_depth self;
     max_pages := max_pages self;
     visited_urls := {[normalized_url]} ∪ visited_urls self;
     crawled_data := crawled_data self; base_domain := base_domain self;
     indexed_count := indexed_count self; requests := requests self |}.

Definition log_request (self : WebsiteCrawler) (url : pystr)
  : WebsiteCrawler :=
  {| base_url := base_url self; max_depth := max_depth self;
     max_pages := max_pages self; visited_urls := visited_urls self;
     crawled_data := crawled_data self; base_domain := base_domain self;
     indexed_count := indexed_count self;
     requests := requests self ++ [url] |}.

Definition store_page (self : WebsiteCrawler) (page : PageData)
  : WebsiteCrawler :=
  {| base_url := base_url self; max_depth := max_depth self;
     max_pages := max_pages self; visited_urls := visited_urls self;
     crawled_data := crawled_data self ++ [page];
     base_domain := base_domain self;
     indexed_count := indexed_count self + 1;
     requests := requests self |}.

(** [crawl_page(crawler, url, depth)]: the crawler afterwards and the
    discovered internal links. *)
Definition crawl_page (self : WebsiteCrawler) (url : pystr) (depth : Z)
  : WebsiteCrawler * list pystr :=
  if (max_depth self <? depth)
     || (max_pages self <=? Z.of_nat (size (visited_urls self)))
  then (self, [])
  else
    let normalized_url := _normalize_url url in
    if bool_decide (normalized_url ∈ visited_urls self) then (self, [])
    else
      let self := mark_visited self normalized_url in
      let answer := arun (requests self) url in
      let self := log_request self url in
      match answer with
      | Some result =>
          if success result && negb (bool_decide (markdown result = []))
          then
            let self :=
              store_page self
                {| page_url := result_url result;
                   content := markdown result;
                   title := title_of result; depth := depth |} in
            let raw_links := _extract_links_from_result result in
            let internal_links :=
              foldl (λ internal_links link,
                       match internal_link self url link with
                       | Some absolute_url =>
                           internal_links ++ [absolute_url]
                       | None => internal_links
                       end) [] raw_links in
            (self, internal_links)
          else (self, [])
      | None => (self, [])
      end.

(** The condition of the [while] loop of [crawl_website]. *)
Definition loop_cond (self : WebsiteCrawler)
    (urls_to_crawl : list (pystr * Z)) : bool :=
  negb (bool_decide (urls_to_crawl = []))
  && (Z.of_nat (size (visited_urls self)) <? max_pages self).

(** One iteration of the loop. *)
Definition loop_body (self : WebsiteCrawler)
    (urls_to_crawl : list (pystr * Z))
  : WebsiteCrawler * list (pystr * Z) :=
  match urls_to_crawl with
  | [] => (self, [])
  | (current_url, current_depth) :: urls_to_crawl =>
      if max_depth self <? current_depth then (self, urls_to_crawl)
      else
        let '(self, discovered_links) :=
          crawl_page self current_url current_depth in
        (self,
         foldl (λ urls_to_crawl link,
                  if Z.of_nat (size (visited_urls self)) <? max_pages self
                  then urls_to_crawl ++ [(link, current_depth + 1)]
                  else urls_to_crawl)
               urls_to_crawl discovered_links)
  end.

(** The loop, for at most [fuel] iterations. *)
Fixpoint crawl_loop (fuel : nat) (self : WebsiteCrawler)
    (urls_to_crawl : list (pystr * Z)) : option WebsiteCrawler :=
  if loop_cond self urls_to_crawl then
    match fuel with
    | O => None
    | S fuel' =>
        let '(self', urls_to_crawl') := loop_body self urls_to_crawl in
        crawl_loop fuel' self' urls_to_crawl'
    end
  else Some self.

(** The crawler and the queue after [n] iterations (fewer when the loop
    ends before). *)
Fixpoint after_iterations (n : nat) (self : WebsiteCrawler)
    (urls_to_crawl : list (pystr * Z))
  : WebsiteCrawler * list (pystr * Z) :=
  match n with
  | O => (self, urls_to_crawl)
  | S n' =>
      if loop_cond self urls_to_crawl then
        let '(self', urls_to_crawl') := loop_body self urls_to_crawl in
        after_iterations n' self' urls_to_crawl'
      else (self, urls_to_crawl)
  end.

Definition completion_log (self : WebsiteCrawler) : CompletionLog :=
  {| log_pages_indexed := indexed_count self;
     log_urls_visited := Z.of_nat (size (visited_urls self));
     log_max_depth := max_or_zero (depth <$> crawled_data self) |}.

Definition returned_dict (self : WebsiteCrawler) : list (pystr * RetVal) :=
  [ (str "data", RData (crawled_data self));
    (str "indexed_count", RInt (indexed_count self));
    (str "visited_count", RInt (Z.of_nat (size (visited_urls self))));
    (str "urls_visited", RUrls (elements (visited_urls self))) ].

(** [crawl_website()]: the crawler at the end, what was logged and what
    is returned. *)
Definition crawl_website (fuel : nat) (self : WebsiteCrawler)
  : option (WebsiteCrawler * CompletionLog * list (pystr * RetVal)) :=
  final ← crawl_loop fuel self [(base_url self, 0)];
  Some (final, completion_log final, returned_dict final).

End Crawler.

Arguments loop_body : simpl never.
Arguments crawl_page : simpl never.

(** ** [VectorStoreManager]

    The FAISS index, the documents it returns and the errors of the
    embedding and index libraries are those of the collaborators; the
    storage directory is a map from session id ([STORAGE_DIR / session_id])
    to the content of the session's directory.

    The map stands for the directory as far as session ids are names of
    entries of [STORAGE_DIR]: [pathlib] sends [""] and ["."] to
    [STORAGE_DIR] itself, ["s1/"] to the directory of ["s1"], an id with
    a [/] inside to a nested path, whose [mkdir] raises when the parent
    is missing, and an id that starts with [/] out of [STORAGE_DIR].
    [plain_id] excludes these; the ids that [POST /crawl] makes are plain.
    The file system is taken to do what it is asked ([mkdir], [save_local]
    and [rmtree] of an entry of [STORAGE_DIR] do not raise, and names are
    told apart by their characters); an error of [rmtree] would be
    caught by [delete_session] and leave what it had not yet removed. *)

(** A session id that names an entry of [STORAGE_DIR]: one path
    component that is neither empty nor [.] nor [..], without [/] and
    without the null character, and short enough for a file name (255
    bytes, however its characters are encoded). *)
Definition plain_id (session_id : pystr) : Prop :=
  session_id ≠ [] ∧ session_id ≠ str "." ∧ session_id ≠ str ".."
  ∧ ("/"%char ∉ session_id) ∧ ("000"%char ∉ session_id)
  ∧ (length session_id ≤ 127)%nat.

Module VectorStore.
Section VectorStore.
Variables Index Document LibError : Type.
(** [FAISS.from_documents(split_docs, embeddings)] after chunking. *)
Variable build_index : list PageData → LibError + Index.
(** [index.similarity_search(query, k=k)] *)
Variable index_search : Index → pystr → Z → LibError + list Document.

(** The file [faiss_index] of a session directory: written by
    [save_local], or something [FAISS.load_local] raises on. *)
Inductive IndexFile :=
| Saved (index : Index)
| Unreadable.

Record SessionDir := { faiss_index : option IndexFile }.

Record VectorStoreManager := {
  session_id : pystr;
  vector_store : option Index
}.

Inductive PyError :=
| NoVectorStore        (* ValueError("No vector store found for session ...") *)
| AttributeError
| Library (e : LibError).

(** [VectorStoreManager(session_id)] *)
Definition new (session_id : pystr) : VectorStoreManager :=
  {| session_id := session_id; vector_store := None |}.

(** [create_vector_store(crawled_data)]: the directory is made first;
    an error of the libraries leaves it without an index.  For a
    [plain_id], whose [mkdir(exist_ok=True)] has its parent. *)
Definition create_vector_store (storage : gmap pystr SessionDir)
    (self : VectorStoreManager) (crawled_data : list PageData)
  : gmap pystr SessionDir * VectorStoreManager * option PyError :=
  let storage :=
    match storage !! session_id self with
    | Some _ => storage
    | None => <[session_id self := {| faiss_index := None |}]> storage
    end in
  match build_index crawled_data with
  | inl e => (storage, self, Some (Library e))
  | inr index =>
      (<[session_id self := {| faiss_index := Some (Saved index) |}]>
         storage,
       {| session_id := session_id self; vector_store := Some index |},
       None)
  end.

(** [load_vector_store()] *)
Definition load_vector_store (storage : gmap pystr SessionDir)
    (self : VectorStoreManager) : VectorStoreManager * bool :=
  match storage !! session_id self with
  | Some {| faiss_index := Some (Saved index) |} =>
      ({| session_id := session_id self; vector_store := Some index |},
       true)
  | _ => (self, false)
  end.

(** [similarity_search(query, k)] *)
Definition similarity_search (storage : gmap pystr SessionDir)
    (self : VectorStoreManager) (query : pystr) (k : Z)
  : VectorStoreManager * (PyError + list Document) :=
  let '(self, found) :=
    match vector_store self with
    | Some _ => (self, true)
    | None => load_vector_store storage self
    end in
  if found then
    match vector_store self with
    | Some index =>
        (self,
         match index_search index query k with
         | inl e => inl (Library e)
         | inr results => inr results
         end)
    | None => (self, inl AttributeError)
    end
  else (self, inl NoVectorStore).

(** [delete_session()]: [shutil.rmtree] of the session directory when
    it exists.  The [except] branch, which logs an error of [rmtree] and
    returns, is not taken when [rmtree] does not raise. *)
Definition delete_session (storage : gmap pystr SessionDir)
    (self : VectorStoreManager) : gmap pystr SessionDir :=
  match storage !! session_id self with
  | Some _ => delete (session_id self) storage
  | None => storage
  end.

End VectorStore.

Arguments Saved {Index}.
Arguments Unreadable {Index}.
Arguments Build_SessionDir {Index}.
Arguments faiss_index {Index}.
Arguments Build_VectorStoreManager {Index}.
Arguments session_id {Index}.
Arguments vector_store {Index}.
Arguments NoVectorStore {LibError}.
Arguments AttributeError {LibError}.
Arguments Library {LibError}.
Arguments new {Index}.
Arguments create_vector_store {Index LibError}.
Arguments load_vector_store {Index}.
Arguments similarity_search {Index Document LibError}.
Arguments delete_session {Index}.
End VectorStore.

(** ** [ChatManager] and the session end points of [main.py] *)
Module ChatService.
Section ChatService.
Variables Index LibError : Type.
Variable build_index : list PageData → LibError + Index.

(** A [ChatSession], reduced to its [vector_manager]. *)
Record ChatSession := {
  vector_manager : VectorStore.VectorStoreManager Index
}.

(** The process: the [sessions] of the global [chat_manager] and the
    storage directory. *)
Record App := {
  sessions : gmap pystr ChatSession;
  storage : gmap pystr (VectorStore.SessionDir Index)
}.

(** [ChatManager.get_or_create_session(session_id)] *)
Definition get_or_create_session (app : App) (session_id : pystr)
  : App * ChatSession :=
  match sessions app !! session_id with
  | Some session => (app, session)
  | None =>
      let session :=
        {| vector_manager := VectorStore.new session_id |} in
      ({| sessions := <[session_id := session]> (sessions app);
          storage := storage app |}, session)
  end.

(** [ChatManager.delete_session(session_id)] *)
Definition delete_session (app : App) (session_id : pystr) : App :=
  match sessions app !! session_id with
  | Some session =>
      {| sessions := delete session_id (sessions app);
         storage := VectorStore.delete_session (storage app)
                      (vector_manager session) |}
  | None => app
  end.

(** The part of [POST /crawl] after the crawl: a [VectorStoreManager]
    of its own builds and saves the index of the new session. *)
Definition crawl_endpoint_store (app : App) (session_id : pystr)
    (crawled_data : list PageData) : App :=
  let '(storage', _, _) :=
    VectorStore.create_vector_store build_index
      (storage app) (VectorStore.new session_id) crawled_data in
  {| sessions := sessions app; storage := storage' |}.

End ChatService.

Arguments Build_ChatSession {Index}.
Arguments vector_manager {Index}.
Arguments Build_App {Index}.
Arguments sessions {Index}.
Arguments storage {Index}.
Arguments get_or_create_session {Index}.
Arguments delete_session {Index}.
Arguments crawl_endpoint_store {Index LibError}.
End ChatService.

(** ** Definitions used to state the properties *)

(** Link extraction as the design document words it: a bare string or a
    record with an [href] field is recognized, anything else is skipped. *)
Definition recognized (link : PyVal) : option PyVal :=
  match link with
  | PStr _ => Some link
  | PDict d => getitem d (str "href")
  | _ => None
  end.

Definition recognized_entries (v : PyVal) : list PyVal :=
  match v with
  | PList l => omap recognized l
  | _ => []
  end.

(** Absent link data gives the empty sequence; a flat list gives its
    recognized entries; a categorized mapping gives those of the
    [internal] list, then those of the other lists in the order of the
    mapping; every other shape is skipped. *)
Definition extract_spec (link_data : PyVal) : list PyVal :=
  if negb (truthy link_data) then []
  else
    match link_data with
    | PList _ => recognized_entries link_data
    | PDict d =>
        default [] (recognized_entries <$> getitem d (str "internal"))
        ++ mjoin ((λ '(key, value),
                     if bool_decide (key = str "internal") then []
                     else recognized_entries value) <$> d)
    | _ => []
    end.

(** What holds of a crawler throughout a run. *)
Record crawl_inv (checks : HostChecks) (self : WebsiteCrawler) : Prop := {
  inv_visited :
    visited_urls self = list_to_set (_normalize_url checks <$> requests self);
  inv_once : NoDup (_normalize_url checks <$> requests self);
  inv_budget :
    requests self = [] ∨ Z.of_nat (length (requests self)) ≤ max_pages self;
  inv_pages : (length (crawled_data self) ≤ length (requests self))%nat;
  inv_count : indexed_count self = Z.of_nat (length (crawled_data self));
  inv_depth : Forall (λ page, depth page ≤ max_depth self) (crawled_data self)
}.

(** The fetch of [url] brought no page: [arun] raised, or the result is
    unsuccessful or has no text. *)
Definition fetch_failed (answer : option CrawlResult) : Prop :=
  match answer with
  | None => True
  | Some result => success result = false ∨ markdown result = []
  end.

(** What one call of [crawl_page] does: nothing at all, or a visit, which
    marks the URL, requests it once, and brings either no page or one
    page at the current depth together with links that are not yet
    visited. *)
Inductive page_outcome (checks : HostChecks)
    (arun : list pystr → pystr → option CrawlResult)
    (self : WebsiteCrawler) (u : pystr) (d : Z)
  : WebsiteCrawler → list pystr → Prop :=
| page_skipped : page_outcome checks arun self u d self []
| page_visited self' found :
    d ≤ max_depth self →
    Z.of_nat (size (visited_urls self)) < max_pages self →
    _normalize_url checks u ∉ visited_urls self →
    visited_urls self' = {[_normalize_url checks u]} ∪ visited_urls self →
    requests self' = requests self ++ [u] →
    max_depth self' = max_depth self →
    max_pages self' = max_pages self →
    base_url self' = base_url self →
    (crawled_data self' = crawled_data self
     ∧ indexed_count self' = indexed_count self
     ∧ found = []
     ∧ fetch_failed (arun (requests self) u)
     ∨ ∃ result,
         arun (requests self) u = Some result
         ∧ success result = true ∧ markdown result ≠ []
         ∧ crawled_data self'
           = crawled_data self
             ++ [{| page_url := result_url result;
                    content := markdown result;
                    title := title_of result; depth := d |}]
         ∧ indexed_count self' = indexed_count self + 1
         ∧ Forall (λ l, _normalize_url checks l ∉ visited_urls self') found) →
    page_outcome checks arun self u d self' found.

(** The site of the scenario: A links to B and C, B links to C. *)
Module Scenario.
Definition A : pystr := str "https://site.test/".
Definition B : pystr := str "https://site.test/b".
Definition C : pystr := str "https://site.test/c".

Definition page (u : pystr) (hrefs : list pystr) : CrawlResult :=
  {| success := true; url := u; markdown := str "text"; metadata := None;
     links := PDict [(str "internal",
                      PList ((λ l, PDict [(str "href", PStr l)]) <$> hrefs))]
  |}.

Definition site (_ : list pystr) (u : pystr) : option CrawlResult :=
  if decide (u = A) then Some (page A [B; C])
  else if decide (u = B) then Some (page B [C])
  else if decide (u = C) then Some (page C [])
  else None.

(** A site whose only page cannot be fetched. *)
Definition down (_ : list pystr) (_ : pystr) : option CrawlResult := None.

(** [WebsiteCrawler(A, max_depth=2, max_pages=10)] *)
Definition crawler : WebsiteCrawler :=
  {| base_url := A; max_depth := 2; max_pages := 10; visited_urls := ∅;
     crawled_data := []; base_domain := str "site.test"; indexed_count := 0;
     requests := [] |}.
End Scenario.

(** A list in two pages: the first links to the second, which differs
    from it in the query only. *)
Module Paging.
Definition first : pystr := str "https://site.test/list?page=1".
Definition second : pystr := str "https://site.test/list?page=2".

Definition site (_ : list pystr) (u : pystr) : option CrawlResult :=
  if decide (u = first) then Some (Scenario.page first [second])
  else if decide (u = second) then Some (Scenario.page second [])
  else None.
End Paging.

(** How many more URLs the page budget admits. *)
Definition budget_left (self : WebsiteCrawler) : nat :=
  Z.to_nat (max_pages self - Z.of_nat (size (visited_urls self))).

(** Characters [urlsplit] does not remove: no tab, carriage return or
    line feed. *)
Definition safe_char (c : ascii) : Prop :=
  c ≠ "009"%char ∧ c ≠ "013"%char ∧ c ≠ "010"%char.

(** The characters that end the network location. *)
Definition is_delim (c : ascii) : Prop :=
  c = "/"%char ∨ c = "?"%char ∨ c = "#"%char.

(** A text that is empty or starts with a character with the property. *)
Definition starts_with (P : ascii → Prop) (s : pystr) : Prop :=
  match s with
  | [] => True
  | c :: _ => P c
  end.

(** What the components [scheme], [netloc] and [path] of a parsed URL
    with a scheme and a network location satisfy. *)
Record clean_scheme (s : pystr) : Prop := {
  cs_alpha : ∃ c s', s = c :: s' ∧ is_ascii_alpha c = true;
  cs_chars : forallb scheme_char s = true;
  cs_lower : lower s = s
}.

Record clean_netloc (checks : HostChecks) (n : pystr) : Prop := {
  cn_delims : Forall (λ c, ¬ is_delim c) n;
  cn_safe : Forall safe_char n;
  cn_brackets : brackets_ok checks n = true;
  cn_checked : _checknetloc checks n = true
}.

Record clean_path (p : pystr) : Prop := {
  cp_chars : Forall (λ c, c ≠ "#"%char ∧ c ≠ "?"%char) p;
  cp_safe : Forall safe_char p;
  cp_abs : starts_with (λ c, c = "/"%char) p
}.

(** The path as [_normalize_url] leaves it: without its last character
    when it ends in [/] and is longer than one character. *)
Definition strip_slash (p : pystr) : pystr :=
  if endswith "/" p && (1 <? Z.of_nat (length p)) then drop_last p else p.

(** The index a handle can search: the one in memory, else the one
    [load_vector_store] finds under the session's directory. *)
Definition handle_index {Index} (storage : gmap pystr (VectorStore.SessionDir Index))
    (self : VectorStore.VectorStoreManager Index) : option Index :=
  match VectorStore.vector_store self with
  | Some index => Some index
  | None =>
      match storage !! VectorStore.session_id self with
      | Some {| VectorStore.faiss_index := Some (VectorStore.Saved index) |}
        => Some index
      | _ => None
      end
  end.

(** The process after [POST /crawl] has stored the session [s1], in a
    run where the index of a crawl is the list of its pages. *)
Module Sessions.
Definition s1 : pystr := str "s1".

Definition one_page : PageData :=
  {| page_url := Scenario.A; content := str "text"; title := PStr [];
     depth := 0 |}.

Definition build (pages : list PageData) : unit + list PageData :=
  inr pages.

Definition started : ChatService.App (list PageData) :=
  {| ChatService.sessions := ∅; ChatService.storage := ∅ |}.

Definition crawled : ChatService.App (list PageData) :=
  ChatService.crawl_endpoint_store build started s1 [one_page].
End Sessions.

(** The components of a split URL that [_normalize_url] reads. *)
Definition location (r : SplitResult) : pystr * pystr * pystr :=
  (s_scheme r, s_netloc r, s_path r).

(** ** More of the program: [index_website] and [POST /crawl] *)

(** [index_website(url, max_depth, max_pages)]: [None] when the fuel does
    not suffice, [inl ()] for the [ValueError] of the constructor. *)
Definition index_website (checks : HostChecks)
    (arun : list pystr → pystr → option CrawlResult) (fuel : nat)
    (url : pystr) (max_depth max_pages : Z)
  : option (unit + list (pystr * RetVal)) :=
  match init checks url max_depth max_pages with
  | None => Some (inl ())
  | Some crawler =>
      '(_, _, ret) ← crawl_website checks arun fuel crawler;
      Some (inr ret)
  end.

(** What holds of a crawler and its frontier throughout a run, besides
    [crawl_inv]: the requests and the frontier stay on the base
    domain. *)
Record domain_inv (checks : HostChecks) (self : WebsiteCrawler)
    (urls_to_crawl : list (pystr * Z)) : Prop := {
  di_requests :
    Forall (λ u, _is_same_domain checks self u = true) (requests self);
  di_frontier :
    Forall (λ e, _is_same_domain checks self e.1 = true) urls_to_crawl
}.

(** [WebsiteCrawler.crawl_website], under the name the end point of the
    same name uses for it. *)
Definition crawler_crawl_website := crawl_website.

(** The end point [POST /crawl] of [main.py]. *)
Module Main.

(** [CrawlRequest]: [max_depth] and [max_pages] are [Optional[int]]. *)
Record CrawlRequest := {
  req_url : pystr;
  req_max_depth : option Z;
  req_max_pages : option Z
}.

(** [CrawlResponse], without the constant [status] and the [message]. *)
Record CrawlResponse := {
  resp_session_id : pystr;
  resp_url : pystr;
  pages_crawled : Z;
  urls_scraped : list pystr
}.

Inductive Http (A : Type) :=
| Answer (a : A)
| HTTPException (status_code : Z).
Arguments Answer {A}.
Arguments HTTPException {A}.

Section Main.
Variable checks : HostChecks.
Variable arun : list pystr → pystr → option CrawlResult.
Variables Index LibError : Type.
Variable build_index : list PageData → LibError + Index.
(** [settings.OPENAI_API_KEY] *)
Variable api_key : pystr.

(** [crawl_website(request)] with [session_id = str(uuid.uuid4())];
    [None] when the fuel does not suffice.  A [max_pages] of [None]
    raises [TypeError] in the condition of the crawl loop, a [max_depth]
    of [None] in its body, if it is entered; every exception that is
    not an [HTTPException] is answered with status 500. *)
Definition crawl_website (fuel : nat) (session_id : pystr)
    (request : CrawlRequest) (app : ChatService.App Index)
  : option (ChatService.App Index * Http CrawlResponse) :=
  if bool_decide (api_key = []) then Some (app, HTTPException 500)
  else
    match urlparse checks (req_url request), req_max_pages request with
    | None, _ => Some (app, HTTPException 500)
    | Some _, None => Some (app, HTTPException 500)
    | Some _, Some max_pages =>
        match req_max_depth request with
        | None =>
            if 0 <? max_pages then Some (app, HTTPException 500)
            else Some (app, HTTPException 400)
        | Some max_depth =>
            crawler ← init checks (req_url request) max_depth max_pages;
            '(final, _, _) ← crawler_crawl_website checks arun fuel crawler;
            if bool_decide (crawled_data final = []) then
              Some (app, HTTPException 400)
            else
              let '(storage', _, error) :=
                VectorStore.create_vector_store build_index
                  (ChatService.storage app) (VectorStore.new session_id)
                  (crawled_data final) in
              let app' :=
                {| ChatService.sessions := ChatService.sessions app;
                   ChatService.storage := storage' |} in
              match error with
              | Some _ => Some (app', HTTPException 500)
              | None =>
                  Some (app',
                        Answer
                          {| resp_session_id := session_id;
                             resp_url := req_url request;
                             pages_crawled := indexed_count final;
                             urls_scraped :=
                               elements (visited_urls final) |})
              end
        end
    end.

End Main.

Arguments crawl_website checks arun {Index LibError}.
End Main.

(** Crawlers and a parsed URL for the examples of the further
    properties. *)
Module Examples.
(** [WebsiteCrawler(A, max_depth=2, max_pages=0)] *)
Definition no_pages : WebsiteCrawler :=
  {| base_url := Scenario.A; max_depth := 2; max_pages := 0;
     visited_urls := ∅; crawled_data := [];
     base_domain := str "site.test"; indexed_count := 0; requests := [] |}.

(** [urlparse("https://a.com/docs")] *)
Definition docs : ParseResult :=
  {| scheme := str "https"; netloc := str "a.com"; path := str "/docs";
     params := []; query := []; fragment := [] |}.

(** [urlparse("https://site.test/")] *)
Definition home : ParseResult :=
  {| scheme := str "https"; netloc := str "site.test"; path := str "/";
     params := []; query := []; fragment := [] |}.

(** A request for the site of the scenario with the given limits. *)
Definition request (depth_limit page_limit : option Z) : Main.CrawlRequest :=
  {| Main.req_url := Scenario.A; Main.req_max_depth := depth_limit;
     Main.req_max_pages := page_limit |}.
End Examples.

(** The sessions of the [chat_manager] are filed under their own ids. *)
Definition well_keyed {Index} (app : ChatService.App Index) : Prop :=
  ∀ sid session,
    ChatService.sessions app !! sid = Some session →
    VectorStore.session_id (ChatService.vector_manager session) = sid.

(** The order of a breadth-first run: the depths of the stored pages,
    followed by those of the frontier, never decrease, and the frontier
    spans at most two levels. *)
Definition bfs_inv (self : WebsiteCrawler) (urls_to_crawl : list (pystr * Z))
  : Prop :=
  StronglySorted Z.le ((depth <$> crawled_data self) ++ urls_to_crawl.*2)
  ∧ ∀ u d rest,
      urls_to_crawl = (u, d) :: rest → Forall (λ e, e.2 ≤ d + 1) rest.

(** * Properties *)

(** ** Link extraction *)

Lemma has_key_getitem d k : has_key d k = true → is_Some (getitem d k).
Proof.
  unfold has_key. rewrite bool_decide_eq_true.
  induction d as [|[k' v] d IH]; simpl.
  - by intros ?%elem_of_nil.
  - intros Hin. destruct (decide (k' = k)); [by eexists|].
    apply IH. by apply elem_of_cons in Hin as [?|?]; [congruence|].
Qed.

Lemma getitem_has_key d k : has_key d k = false → getitem d k = None.
Proof.
  unfold has_key. rewrite bool_decide_eq_false.
  induction d as [|[k' v] d IH]; simpl; [done|].
  intros Hin. destruct (decide (k' = k)) as [->|].
  - destruct Hin. by left.
  - apply IH. intros ?. apply Hin. by right.
Qed.

Lemma collect_link_run link acc :
  collect_link link acc = (Some (), acc ++ option_list (recognized link)).
Proof.
  destruct link as [| | | |l|d]; simpl;
    rewrite ?app_nil_r; try reflexivity.
  destruct (has_key d (str "href")) eqn:Hk.
  - destruct (has_key_getitem _ _ Hk) as [v Hv].
    unfold mbind, extract_bind, Extract.bind, Extract.subscript.
    by rewrite Hv.
  - rewrite (getitem_has_key _ _ Hk). simpl. by rewrite app_nil_r.
Qed.

Lemma for_each_collect l acc :
  Extract.for_each l collect_link acc = (Some (), acc ++ omap recognized l).
Proof.
  revert acc. induction l as [|link l IH]; intros acc; simpl.
  - by rewrite app_nil_r.
  - unfold Extract.bind. rewrite collect_link_run, IH.
    destruct (recognized link); simpl; by rewrite <- ?app_assoc, ?app_nil_r.
Qed.

Lemma for_each_categories d acc :
  Extract.for_each d
    (λ '(key, value),
       match value with
       | PList l =>
           if negb (bool_decide (key = str "internal"))
           then Extract.for_each l collect_link
           else Extract.ret ()
       | _ => Extract.ret ()
       end) acc
  = (Some (),
     acc ++ mjoin ((λ '(key, value),
                      if bool_decide (key = str "internal") then []
                      else recognized_entries value) <$> d)).
Proof.
  revert acc. induction d as [|[key value] d IH]; intros acc; simpl.
  - by rewrite app_nil_r.
  - unfold Extract.bind.
    destruct value as [| | | |l|d']; simpl;
      try (rewrite IH; by destruct (bool_decide _)).
    destruct (bool_decide (key = str "internal")); simpl.
    + by rewrite IH.
    + by rewrite for_each_collect, IH, app_assoc.
Qed.

(** C6. Link extraction is total and skips what it does not recognize:
    for every fetch result the [except] branch is never taken and the
    links returned are exactly those the design asks for: none when
    the link data is absent, the recognized entries (bare strings and
    the [href] of records) of a flat list or of the lists of a
    categorized mapping, and nothing for every other shape. *)
Theorem extract_links_total (result : CrawlResult) :
  extract_links_outcome result = (extract_spec (links result), false).
Proof.
  unfold extract_links_outcome, extract_spec.
  destruct (truthy (links result)) eqn:Ht; simpl; [|done].
  destruct (links result) as [| | | |l|d]; simpl; try done.
  - by rewrite for_each_collect.
  - unfold mbind, extract_bind, Extract.bind.
    destruct (has_key d (str "internal")) eqn:Hk.
    + destruct (has_key_getitem _ _ Hk) as [v Hv].
      unfold Extract.subscript. rewrite Hv. simpl.
      destruct v as [| | | |l|d']; simpl;
        try (by rewrite for_each_categories).
      by rewrite for_each_collect, for_each_categories.
    + rewrite (getitem_has_key _ _ Hk). simpl.
      by rewrite for_each_categories.
Qed.

(** ** The crawl loop *)
Section CrawlerProofs.
Variable checks : HostChecks.
Variable arun : list pystr → pystr → option CrawlResult.

Abbreviation normalize := (_normalize_url checks).

Lemma internal_links_fresh self V u raw_links acc :
  visited_urls self = V →
  Forall (λ l, normalize l ∉ V) acc →
  Forall (λ l, normalize l ∉ V)
    (foldl (λ internal_links link,
              match internal_link checks self u link with
              | Some absolute_url => internal_links ++ [absolute_url]
              | None => internal_links
              end) acc raw_links).
Proof.
  intros <-. revert acc.
  induction raw_links as [|link raw IH]; intros acc Hacc; simpl; [done|].
  apply IH. destruct (internal_link checks self u link) as [a|] eqn:Hl;
    [|done].
  apply Forall_app; split; [done|]. apply Forall_singleton.
  unfold internal_link in Hl.
  destruct (urljoin_val checks u link) as [[| | |a'| |]|]; try done.
  destruct (_is_same_domain checks self a'); [|done].
  case_bool_decide; [|done]. by simplify_eq.
Qed.

Lemma crawl_page_outcome self u d :
  page_outcome checks arun self u d (crawl_page checks arun self u d).1
    (crawl_page checks arun self u d).2.
Proof.
  unfold crawl_page.
  destruct (_ || _) eqn:Hguard; [constructor|].
  apply orb_false_iff in Hguard as [Hd Hn].
  apply Z.ltb_ge in Hd. apply Z.leb_gt in Hn.
  case_bool_decide as Hvis; [constructor|].
  destruct (arun _ u) as [result|] eqn:Hrun; simpl in Hrun.
  - destruct (success result && _) eqn:Hok.
    + apply andb_true_iff in Hok as [Hs Hm].
      apply negb_true_iff, bool_decide_eq_false in Hm.
      simpl. apply page_visited; simpl; try done.
      right. exists result. repeat split; try done.
      by eapply internal_links_fresh.
    + simpl. apply page_visited; simpl; try done.
      left. rewrite Hrun. repeat split; try done. simpl.
      apply andb_false_iff in Hok as [?|Hm]; [by left|right].
      by apply negb_false_iff, bool_decide_eq_true in Hm.
  - simpl. apply page_visited; simpl; try done.
    left. by rewrite Hrun.
Qed.

Lemma crawl_page_inv self u d :
  crawl_inv checks self →
  crawl_inv checks (crawl_page checks arun self u d).1.
Proof.
  intros [Hv Ho Hb Hp Hc Hd].
  destruct (crawl_page_outcome self u d)
    as [|self' found Hle Hlt Hnew Hvis Hreq Hmd Hmp _ Hdata]; [done|].
  assert (Hsize : size (visited_urls self) = length (requests self)).
  { rewrite Hv, size_list_to_set by done. by rewrite length_fmap. }
  split.
  - rewrite Hvis, Hreq, fmap_app, list_to_set_app_L, Hv. simpl.
    rewrite union_empty_r_L. apply (comm_L _).
  - rewrite Hreq, fmap_app. apply NoDup_app. split; [done|]. split.
    + intros x Hx ->%list_elem_of_singleton. apply Hnew.
      rewrite Hv. by apply elem_of_list_to_set.
    + apply NoDup_singleton.
  - right. rewrite Hreq, length_app, Hmp. simpl. lia.
  - rewrite Hreq, length_app. simpl.
    destruct Hdata as [(-> & _)|(r & _ & _ & _ & -> & _)];
      rewrite ?length_app; simpl; lia.
  - destruct Hdata as [(-> & -> & _)|(r & _ & _ & _ & -> & -> & _)];
      rewrite ?length_app; simpl; lia.
  - rewrite Hmd.
    destruct Hdata as [(-> & _)|(r & _ & _ & _ & -> & _)]; [done|].
    apply Forall_app. split; [done|]. by apply Forall_singleton.
Qed.

(** The [for] loop that appends the discovered links. *)
Lemma enqueue_links self (d : Z) (found : list pystr)
    (queue : list (pystr * Z)) :
  foldl (λ urls_to_crawl link,
           if Z.of_nat (size (visited_urls self)) <? max_pages self
           then urls_to_crawl ++ [(link, d + 1)]
           else urls_to_crawl) queue found
  = queue
    ++ (if Z.of_nat (size (visited_urls self)) <? max_pages self
        then (λ link, (link, d + 1)) <$> found else []).
Proof.
  revert queue. induction found as [|l found IH]; intros queue; simpl.
  - by destruct (_ <? _); rewrite app_nil_r.
  - rewrite IH. destruct (_ <? _); [|done]. by rewrite <- app_assoc.
Qed.

(** One iteration takes the head of the queue and appends, at the tail
    and one level deeper, links that are not visited at that time. *)
Lemma loop_body_queue self u d rest :
  ∃ new,
    (loop_body checks arun self ((u, d) :: rest)).2 = rest ++ new
    ∧ Forall (λ e, e.2 = d + 1
                   ∧ normalize e.1
                     ∉ visited_urls
                         (loop_body checks arun self ((u, d) :: rest)).1)
        new.
Proof.
  unfold loop_body. destruct (max_depth self <? d).
  { exists []. by rewrite app_nil_r. }
  destruct (crawl_page checks arun self u d) as [self' found] eqn:Hcp.
  simpl. rewrite enqueue_links. eexists. split; [done|].
  destruct (_ <? _); [|done].
  apply Forall_fmap. simpl.
  pose proof (crawl_page_outcome self u d) as Hout. rewrite Hcp in Hout.
  simpl in Hout.
  destruct Hout as [|self' found _ _ _ _ _ _ _ _ Hdata]; [done|].
  destruct Hdata as [(_ & _ & -> & _)|(r & _ & _ & _ & _ & _ & Hf)];
    [done|].
  eapply Forall_impl; [exact Hf|]. by intros l Hl.
Qed.

Lemma loop_body_inv self queue :
  crawl_inv checks self →
  crawl_inv checks (loop_body checks arun self queue).1.
Proof.
  intros Hinv. unfold loop_body. destruct queue as [|[u d] rest]; [done|].
  destruct (max_depth self <? d); [done|].
  pose proof (crawl_page_inv self u d Hinv).
  by destruct (crawl_page checks arun self u d).
Qed.

Lemma loop_body_params self queue :
  let self' := (loop_body checks arun self queue).1 in
  max_depth self' = max_depth self ∧ max_pages self' = max_pages self
  ∧ base_url self' = base_url self.
Proof.
  unfold loop_body. destruct queue as [|[u d] rest]; [done|].
  destruct (max_depth self <? d); [done|].
  pose proof (crawl_page_outcome self u d) as Hout.
  destruct (crawl_page checks arun self u d) as [self' found].
  simpl in *. by destruct Hout.
Qed.

Lemma after_iterations_inv n self queue :
  crawl_inv checks self →
  crawl_inv checks (after_iterations checks arun n self queue).1.
Proof.
  revert self queue. induction n as [|n IH]; intros self queue Hinv;
    simpl; [done|].
  destruct (loop_cond self queue); [|done].
  pose proof (loop_body_inv self queue Hinv).
  destruct (loop_body checks arun self queue) as [self' queue'].
  by apply IH.
Qed.

Lemma after_iterations_params n self queue :
  let self' := (after_iterations checks arun n self queue).1 in
  max_depth self' = max_depth self ∧ max_pages self' = max_pages self
  ∧ base_url self' = base_url self.
Proof.
  revert self queue. induction n as [|n IH]; intros self queue;
    simpl; [done|].
  destruct (loop_cond self queue); [|done].
  pose proof (loop_body_params self queue) as Hp.
  destruct (loop_body checks arun self queue) as [self' queue'].
  specialize (IH self' queue'). simpl in *. intuition congruence.
Qed.

(** The loop with enough fuel ends in the state [after_iterations]
    reaches. *)
Lemma crawl_loop_after fuel self queue final :
  crawl_loop checks arun fuel self queue = Some final →
  final = (after_iterations checks arun fuel self queue).1.
Proof.
  revert self queue. induction fuel as [|fuel IH]; intros self queue; simpl.
  - destruct (loop_cond self queue); [done|]. by intros [= ->].
  - destruct (loop_cond self queue); [|by intros [= ->]].
    destruct (loop_body checks arun self queue) as [self' queue'].
    apply IH.
Qed.

Lemma crawl_loop_inv fuel self queue final :
  crawl_inv checks self →
  crawl_loop checks arun fuel self queue = Some final →
  crawl_inv checks final
  ∧ max_depth final = max_depth self ∧ max_pages final = max_pages self.
Proof.
  intros Hinv ->%crawl_loop_after. split.
  - by apply after_iterations_inv.
  - pose proof (after_iterations_params fuel self queue). simpl in *.
    tauto.
Qed.



(** *** Termination *)

Lemma loop_body_measure self queue :
  loop_cond self queue = true →
  let self' := (loop_body checks arun self queue).1 in
  let queue' := (loop_body checks arun self queue).2 in
  (budget_left self' < budget_left self)%nat
  ∨ budget_left self' = budget_left self
    ∧ (length queue' < length queue)%nat.
Proof.
  unfold loop_cond. intros [Hq Hlt%Z.ltb_lt]%andb_true_iff.
  destruct queue as [|[u d] rest]; [done|]. clear Hq. unfold loop_body.
  destruct (max_depth self <? d); [right; simpl; lia|].
  pose proof (crawl_page_outcome self u d) as Hout.
  destruct (crawl_page checks arun self u d) as [self' found]. simpl in *.
  rewrite enqueue_links.
  destruct Hout as [|self' found _ _ Hnew Hvis _ _ Hmp _ _].
  - right. destruct (_ <? _); rewrite ?app_nil_r; simpl; lia.
  - left. unfold budget_left. rewrite Hvis, Hmp.
    rewrite size_union, size_singleton by by apply disjoint_singleton_l.
    lia.
Qed.

Lemma crawl_loop_terminates self queue :
  ∃ fuel final, crawl_loop checks arun fuel self queue = Some final.
Proof.
  remember (budget_left self) as b eqn:Hb. revert self queue Hb.
  induction b as [b IHb] using lt_wf_ind. intros self queue.
  remember (length queue) as n eqn:Hn. revert self queue Hn.
  induction n as [n IHn] using lt_wf_ind. intros self queue -> ->.
  destruct (loop_cond self queue) eqn:Hc.
  - pose proof (loop_body_measure self queue Hc) as Hm.
    destruct (loop_body checks arun self queue) as [self' queue'] eqn:Hbody.
    simpl in Hm.
    assert (∃ fuel final,
               crawl_loop checks arun fuel self' queue' = Some final)
      as (fuel & final & Hrun).
    { destruct Hm as [Hlt|[Heq Hlt]].
      - by eapply IHb.
      - by eapply IHn. }
    exists (S fuel), final. simpl. by rewrite Hc, Hbody.
  - exists 0%nat, self. simpl. by rewrite Hc.
Qed.

Lemma crawl_website_terminates self :
  ∃ fuel out, crawl_website checks arun fuel self = Some out.
Proof.
  destruct (crawl_loop_terminates self [(base_url self, 0)])
    as (fuel & final & Hrun).
  exists fuel. eexists. unfold crawl_website. by rewrite Hrun.
Qed.

(** More fuel does not change the result. *)
Lemma crawl_loop_deterministic fuel1 fuel2 self queue final1 final2 :
  crawl_loop checks arun fuel1 self queue = Some final1 →
  crawl_loop checks arun fuel2 self queue = Some final2 →
  final1 = final2.
Proof.
  revert fuel2 self queue.
  induction fuel1 as [|fuel1 IH]; intros [|fuel2] self queue; simpl;
    destruct (loop_cond self queue); try congruence.
  destruct (loop_body checks arun self queue). apply IH.
Qed.

Lemma init_inv base depth_limit page_limit self :
  init checks base depth_limit page_limit = Some self →
  crawl_inv checks self
  ∧ base_url self = base ∧ max_depth self = depth_limit
  ∧ max_pages self = page_limit.
Proof.
  unfold init. destruct (urlparse checks base); [|done].
  intros [= <-]. repeat split; simpl; try done.
  - apply NoDup_nil_2.
  - by left.
Qed.

Lemma crawl_inv_size self :
  crawl_inv checks self →
  size (visited_urls self) = length (requests self).
Proof.
  intros [Hv Ho _ _ _ _].
  rewrite Hv, size_list_to_set by done. by rewrite length_fmap.
Qed.

Lemma crawl_inv_pages self :
  crawl_inv checks self → 0 ≤ max_pages self →
  Z.of_nat (length (crawled_data self)) ≤ max_pages self.
Proof.
  intros [_ _ Hb Hp _ _] Hpos. destruct Hb as [Hnil|Hle]; [|lia].
  rewrite Hnil in Hp. simpl in Hp. lia.
Qed.

(** *** The budget *)

(** C2. Every crawl run with [0 ≤ maxDepth] and [0 < maxPages] ends, and
    at its end, as after any number of iterations, there are at most
    [maxPages] page records, each at a depth of at most [maxDepth]. *)
Theorem crawl_within_budget base depth_limit page_limit self :
  0 ≤ depth_limit → 0 < page_limit →
  init checks base depth_limit page_limit = Some self →
  (∃ fuel out, crawl_website checks arun fuel self = Some out)
  ∧ (∀ fuel final log ret,
       crawl_website checks arun fuel self = Some (final, log, ret) →
       Z.of_nat (length (crawled_data final)) ≤ page_limit
       ∧ Forall (λ page, depth page ≤ depth_limit) (crawled_data final)
       ∧ getitem ret (str "data") = Some (RData (crawled_data final)))
  ∧ (∀ n,
       let pages :=
         crawled_data
           (after_iterations checks arun n self [(base, 0)]).1 in
       Z.of_nat (length pages) ≤ page_limit
       ∧ Forall (λ page, depth page ≤ depth_limit) pages).
Proof.
  intros Hd Hp (Hinv & Hbase & Hmd & Hmp)%init_inv.
  split; [apply crawl_website_terminates|]. split.
  - intros fuel final log ret. unfold crawl_website.
    destruct (crawl_loop _ _ fuel self _) as [final'|] eqn:Hrun; [|done].
    simpl. intros [= <- <- <-].
    destruct (crawl_loop_inv _ _ _ _ Hinv Hrun) as (Hinv' & Hmd' & Hmp').
    split; [|split; [|done]].
    + rewrite <- Hmp, <- Hmp'. apply crawl_inv_pages; [done|lia].
    + rewrite <- Hmd, <- Hmd'. by destruct Hinv'.
  - intros n pages. subst pages.
    pose proof (after_iterations_inv n self [(base, 0)] Hinv) as Hinv'.
    pose proof (after_iterations_params n self [(base, 0)]) as (Hmd' & Hmp' & _).
    simpl in Hmd', Hmp'. split.
    + rewrite <- Hmp, <- Hmp'. apply crawl_inv_pages; [done|lia].
    + rewrite <- Hmd, <- Hmd'. by destruct Hinv'.
Qed.

(** *** Deduplication *)

(** C3. In a run no normalized URL is requested twice.  After any number
    of iterations, and at the end, the normalized forms of the requested
    URLs are pairwise distinct and are exactly the visited set; a call of
    [crawl_page] that requests a URL has put its normalized form, which
    was not visited before, into the visited set; and the entries an
    iteration appends to the frontier are not in the visited set, which
    then holds the page itself and all its visited ancestors. *)
Theorem no_url_fetched_twice base depth_limit page_limit self :
  init checks base depth_limit page_limit = Some self →
  (∀ n,
     let self_n := (after_iterations checks arun n self [(base, 0)]).1 in
     NoDup (normalize <$> requests self_n)
     ∧ visited_urls self_n = list_to_set (normalize <$> requests self_n))
  ∧ (∃ fuel final log ret,
       crawl_website checks arun fuel self = Some (final, log, ret)
       ∧ NoDup (normalize <$> requests final)
       ∧ visited_urls final = list_to_set (normalize <$> requests final))
  ∧ (∀ c u d,
       let c' := (crawl_page checks arun c u d).1 in
       requests c' = requests c
       ∨ ((requests c' = requests c ++ [u])
          ∧ (normalize u ∉ visited_urls c)
          ∧ normalize u ∈ visited_urls c'))
  ∧ (∀ c u d rest,
       let c' := (loop_body checks arun c ((u, d) :: rest)).1 in
       ∃ new,
         (loop_body checks arun c ((u, d) :: rest)).2 = rest ++ new
         ∧ Forall (λ e, normalize e.1 ∉ visited_urls c') new).
Proof.
  intros (Hinv & Hbase & _)%init_inv. repeat split.
  - by destruct (after_iterations_inv n self [(base, 0)] Hinv).
  - by destruct (after_iterations_inv n self [(base, 0)] Hinv).
  - destruct (crawl_loop_terminates self [(base_url self, 0)])
      as (fuel & final & Hrun).
    exists fuel, final. eexists _, _. unfold crawl_website. rewrite Hrun.
    split; [done|].
    destruct (crawl_loop_inv _ _ _ _ Hinv Hrun) as ([] & _). by split.
  - intros c u d c'. subst c'.
    destruct (crawl_page_outcome c u d)
      as [|c' found _ _ Hnew Hvis Hreq _ _ _ _]; [by left|].
    right. repeat split; try done. rewrite Hvis.
    by apply elem_of_union_l, elem_of_singleton.
  - intros c u d rest c'. subst c'.
    destruct (loop_body_queue c u d rest) as (new & Hq & Hnew).
    exists new. split; [done|].
    eapply Forall_impl; [exact Hnew|]. by intros e [_ ?].
Qed.

(** *** Failures of single pages *)

(** C5. When the fetch of the page at the head of the frontier fails, or
    brings no text, the iteration records no page, leaves the rest of the
    frontier as it is, and the run goes on from there with the next
    entry. *)
Theorem fetch_failure_is_local self u d rest :
  fetch_failed (arun (requests self) u) →
  let self' := (loop_body checks arun self ((u, d) :: rest)).1 in
  crawled_data self' = crawled_data self
  ∧ indexed_count self' = indexed_count self
  ∧ (loop_body checks arun self ((u, d) :: rest)).2 = rest
  ∧ ∀ fuel,
      crawl_loop checks arun (S fuel) self ((u, d) :: rest)
      = crawl_loop checks arun fuel self' rest.
Proof.
  intros Hfail self'.
  assert (Hbody : crawled_data self' = crawled_data self
                  ∧ indexed_count self' = indexed_count self
                  ∧ (loop_body checks arun self ((u, d) :: rest)).2 = rest
                  ∧ (loop_cond self ((u, d) :: rest) = false →
                     self' = self)).
  { subst self'. unfold loop_body.
    destruct (max_depth self <? d); [done|].
    pose proof (crawl_page_outcome self u d) as Hout.
    assert (Hguard : loop_cond self ((u, d) :: rest) = false →
                     (crawl_page checks arun self u d).1 = self).
    { unfold loop_cond, crawl_page. simpl. intros ->%Z.ltb_ge%Z.leb_le.
      by rewrite orb_true_r. }
    destruct (crawl_page checks arun self u d) as [c found]. simpl in *.
    rewrite enqueue_links.
    destruct Hout as [|c found _ _ _ _ _ _ _ _ Hdata].
    - destruct (_ <? _); by rewrite app_nil_r.
    - destruct Hdata as [(-> & -> & -> & _)|(r & Hr & Hs & Hm & _)].
      + destruct (_ <? _); by rewrite app_nil_r.
      + rewrite Hr in Hfail. simpl in Hfail.
        destruct Hfail; congruence. }
  destruct Hbody as (Hdata & Hcount & Hqueue & Hstop).
  repeat split; try done.
  intros fuel. subst self'. simpl.
  destruct (loop_cond self ((u, d) :: rest)) eqn:Hc.
  - destruct (loop_body checks arun self ((u, d) :: rest)) as [c q].
    simpl in *. by subst q.
  - rewrite (Hstop eq_refl).
    assert (loop_cond self rest = false) as Hc'.
    { unfold loop_cond in *. simpl in Hc. rewrite Hc. apply andb_false_r. }
    destruct fuel; simpl; by rewrite Hc'.
Qed.

(** *** The returned value *)

(** C8, as the code has it.  Every crawl run ends and returns the [dict]
    of all the page records collected ([data]), their number
    ([indexed_count]), the number of URLs requested ([visited_count]) and
    the visited URLs ([urls_visited], each once, the normalized forms of
    the requests); the maximum depth reached, 0 when there is no record,
    is written to the log with the two counts and is not part of the
    returned value. *)
Theorem crawl_returns_pages_and_counts base depth_limit page_limit self :
  init checks base depth_limit page_limit = Some self →
  (∃ fuel out, crawl_website checks arun fuel self = Some out)
  ∧ ∀ fuel final log ret,
      crawl_website checks arun fuel self = Some (final, log, ret) →
      ret = [ (str "data", RData (crawled_data final));
              (str "indexed_count",
               RInt (Z.of_nat (length (crawled_data final))));
              (str "visited_count",
               RInt (Z.of_nat (length (requests final))));
              (str "urls_visited", RUrls (elements (visited_urls final))) ]
      ∧ log = {| log_pages_indexed := Z.of_nat (length (crawled_data final));
                 log_urls_visited := Z.of_nat (length (requests final));
                 log_max_depth :=
                   max_or_zero (depth <$> crawled_data final) |}
      ∧ elements (visited_urls final) ≡ₚ normalize <$> requests final.
Proof.
  intros (Hinv & _)%init_inv. split; [apply crawl_website_terminates|].
  intros fuel final log ret. unfold crawl_website.
  destruct (crawl_loop _ _ fuel self _) as [final'|] eqn:Hrun; [|done].
  simpl. intros [= <- <- <-].
  destruct (crawl_loop_inv _ _ _ _ Hinv Hrun) as (Hinv' & _).
  pose proof (crawl_inv_size _ Hinv') as Hsize.
  destruct Hinv' as [Hv Ho _ _ Hc _].
  unfold returned_dict, completion_log. rewrite Hc, Hsize.
  repeat split. rewrite Hv. by apply elements_list_to_set.
Qed.

End CrawlerProofs.

Lemma crawl_within_budget_witness :
  0 ≤ 2 ∧ 0 < 10
  ∧ init lenient Scenario.A 2 10 = Some Scenario.crawler
  ∧ ∃ fuel out,
      crawl_website lenient Scenario.site fuel Scenario.crawler = Some out.
Proof.
  split; [lia|]. split; [lia|]. split; [reflexivity|].
  apply (crawl_within_budget lenient Scenario.site Scenario.A 2 10
           Scenario.crawler); [lia|lia|reflexivity].
Defined.

Lemma no_url_fetched_twice_witness :
  init lenient Scenario.A 2 10 = Some Scenario.crawler
  ∧ ∃ fuel final log ret,
      crawl_website lenient Scenario.site fuel Scenario.crawler
      = Some (final, log, ret)
      ∧ NoDup (_normalize_url lenient <$> requests final)
      ∧ visited_urls final
        = list_to_set (_normalize_url lenient <$> requests final).
Proof.
  split; [reflexivity|].
  apply (no_url_fetched_twice lenient Scenario.site Scenario.A 2 10
           Scenario.crawler); reflexivity.
Defined.

Lemma fetch_failure_is_local_witness :
  fetch_failed (Scenario.down (requests Scenario.crawler) Scenario.A)
  ∧ crawled_data
      (loop_body lenient Scenario.down Scenario.crawler [(Scenario.A, 0)]).1
    = [].
Proof.
  split; [exact I|].
  apply (fetch_failure_is_local lenient Scenario.down Scenario.crawler
           Scenario.A 0 []); exact I.
Defined.

Lemma crawl_returns_pages_and_counts_witness :
  init lenient Scenario.A 2 10 = Some Scenario.crawler
  ∧ ∃ fuel out,
      crawl_website lenient Scenario.site fuel Scenario.crawler = Some out.
Proof.
  split; [reflexivity|].
  apply (crawl_returns_pages_and_counts lenient Scenario.site Scenario.A
           2 10 Scenario.crawler); reflexivity.
Defined.

(** *** Breadth-first order *)

(** C4. The frontier is a queue: an iteration removes the entry at the
    head and appends what it discovers at the tail, one level deeper.
    On the site where A links to B and C, and B links to C, with
    [max_depth = 2] and [max_pages = 10], the run requests A, B and C,
    once each and in this order, and records them at depths 0, 1, 1. *)
Theorem bfs_order_three_pages (checks : HostChecks) :
  (∀ arun self u d rest,
     ∃ new,
       (loop_body checks arun self ((u, d) :: rest)).2 = rest ++ new
       ∧ Forall (λ e, e.2 = d + 1) new)
  ∧ ∃ final log ret,
      (self ← init checks Scenario.A 2 10;
       crawl_website checks Scenario.site 4 self) = Some (final, log, ret)
      ∧ requests final = [Scenario.A; Scenario.B; Scenario.C]
      ∧ visited_urls final = {[Scenario.A; Scenario.B; Scenario.C]}
      ∧ page_url <$> crawled_data final
        = [Scenario.A; Scenario.B; Scenario.C]
      ∧ depth <$> crawled_data final = [0; 1; 1].
Proof.
  split.
  - intros arun self u d rest.
    destruct (loop_body_queue checks arun self u d rest) as (new & Hq & Hnew).
    exists new. split; [done|].
    eapply Forall_impl; [exact Hnew|]. by intros e [? _].
  - eexists _, _, _. split; [vm_compute; reflexivity|].
    repeat split; vm_compute; reflexivity.
Qed.

(** C8, as stated, fails: on the three-page site the maximum depth
    reached is 1, and no key of the returned [dict] holds it. *)
Lemma max_depth_not_returned :
  ∃ final log ret,
    (self ← init lenient Scenario.A 2 10;
     crawl_website lenient Scenario.site 4 self) = Some (final, log, ret)
    ∧ max_or_zero (depth <$> crawled_data final) = 1
    ∧ ¬ ∃ key, getitem ret key = Some (RInt 1).
Proof.
  eexists _, _, _. split; [vm_compute; reflexivity|].
  split; [vm_compute; reflexivity|].
  intros [key Hkey]. unfold getitem in Hkey.
  repeat (destruct (decide _) in Hkey; [discriminate Hkey|]).
  discriminate Hkey.
Qed.

(** ** URL normalization *)

(** *** [str] methods *)

Lemma find_app c a b :
  find c (a ++ b)
  = match find c a with
    | Some i => Some i
    | None => (λ j, (length a + j)%nat) <$> find c b
    end.
Proof.
  induction a as [|x a IH]; simpl.
  - by destruct (find c b).
  - destruct (decide (x = c)); [done|]. rewrite IH.
    destruct (find c a); simpl; [done|]. by destruct (find c b).
Qed.

Lemma find_None c s : find c s = None ↔ c ∉ s.
Proof.
  induction s as [|x s IH]; simpl.
  - split; [intros _; apply not_elem_of_nil|done].
  - rewrite not_elem_of_cons. destruct (decide (x = c)) as [->|Hne].
    + split; [done|]. by intros [? _].
    + destruct (find c s); simpl.
      * split; [done|]. intros [_ Hs]. by apply IH in Hs.
      * split; [|done]. intros _. split; [congruence|]. by apply IH.
Qed.

Lemma find_Some c s i :
  find c s = Some i →
  (c ∉ take i s) ∧ s = take i s ++ c :: drop (S i) s.
Proof.
  revert i. induction s as [|x s IH]; intros i; simpl; [done|].
  destruct (decide (x = c)) as [->|Hne].
  - intros [= <-]. simpl. split; [apply not_elem_of_nil|by rewrite drop_0].
  - destruct (find c s) as [j|] eqn:Hj; simpl; [|done].
    intros [= <-]. destruct (IH j eq_refl) as [Hnot Heq]. simpl. split.
    + rewrite not_elem_of_cons. split; [congruence|done].
    + by rewrite <- Heq.
Qed.

Lemma find_fresh c a b : c ∉ a → find c (a ++ c :: b) = Some (length a).
Proof.
  intros Ha%find_None. rewrite find_app, Ha. simpl.
  rewrite decide_True by done. simpl. f_equal. lia.
Qed.

Lemma contains_true c s : contains c s = true ↔ c ∈ s.
Proof. unfold contains. apply bool_decide_eq_true. Qed.

Lemma contains_false c s : contains c s = false ↔ c ∉ s.
Proof. unfold contains. apply bool_decide_eq_false. Qed.

Lemma split_at_fresh c s : c ∉ s → split_at c s = (s, []).
Proof. intros Hs%contains_false. unfold split_at. by rewrite Hs. Qed.

Lemma split_at_prefix c s :
  ∃ i, (split_at c s).1 = take i s ∧ c ∉ (split_at c s).1.
Proof.
  unfold split_at. destruct (contains c s) eqn:Hc.
  - unfold split1. destruct (find c s) as [i|] eqn:Hi; simpl.
    + exists i. split; [done|]. by apply find_Some in Hi as [? _].
    + exists (length s). rewrite firstn_all. split; [done|].
      by apply find_None.
  - exists (length s). simpl. rewrite firstn_all. split; [done|].
    by apply contains_false.
Qed.

(** *** Characters removed by [urlsplit] *)

Lemma remove_unsafe_app a b :
  remove_unsafe (a ++ b) = remove_unsafe a ++ remove_unsafe b.
Proof. unfold remove_unsafe, remove. by rewrite !filter_app. Qed.

Lemma remove_unsafe_safe s : Forall safe_char (remove_unsafe s).
Proof.
  unfold remove_unsafe, remove, safe_char. apply Forall_forall. intros c.
  rewrite !list_elem_of_filter. tauto.
Qed.

Lemma remove_unsafe_id s : Forall safe_char s → remove_unsafe s = s.
Proof.
  unfold remove_unsafe, remove. induction 1 as [|c s (? & ? & ?) _ IH];
    [done|].
  rewrite (filter_cons_True _ c s) by done.
  rewrite (filter_cons_True _ c) by done.
  rewrite (filter_cons_True _ c) by done. by rewrite IH.
Qed.

(** *** The network location *)

Lemma find_after_netloc c n rest :
  is_delim c → Forall (λ c, ¬ is_delim c) n →
  find c (n ++ rest) = (λ j, (length n + j)%nat) <$> find c rest.
Proof.
  intros Hc Hn. rewrite find_app.
  assert (find c n = None) as ->; [|done].
  apply find_None. intros Hin. by eapply Forall_forall in Hn.
Qed.

Lemma splitnetloc_rebuilt pre n rest :
  Forall (λ c, ¬ is_delim c) n → starts_with is_delim rest →
  _splitnetloc (pre ++ n ++ rest) (length pre) = (n, rest).
Proof.
  intros Hn Hrest. unfold _splitnetloc, find_from, slice.
  rewrite drop_app_length.
  assert (Hdelim :
    foldl (λ delim c,
             match (λ i, (length pre + i)%nat) <$> find c (n ++ rest) with
             | Some wdelim => Nat.min delim wdelim
             | None => delim
             end) (length (pre ++ n ++ rest)) (str "/?#")
    = (length pre + length n)%nat).
  { rewrite !length_app. unfold str. simpl.
    rewrite !find_after_netloc by (done || unfold is_delim; tauto).
    destruct rest as [|c0 rest]; simpl; [lia|].
    simpl in Hrest.
    destruct Hrest as [-> | [-> | ->]]; simpl;
      repeat (destruct (find _ rest); simpl); lia. }
  rewrite Hdelim.
  rewrite drop_app_ge, drop_app_ge by lia.
  replace (length pre + length n - length pre - length n)%nat with 0%nat
    by lia.
  replace (length pre + length n - length pre)%nat with (length n) by lia.
  by rewrite drop_0, take_app_length.
Qed.

(** Every text is a delimiter-free start followed by nothing or by a
    text that starts with a delimiter. *)
Lemma netloc_span l :
  ∃ n rest,
    l = n ++ rest ∧ Forall (λ c, ¬ is_delim c) n
    ∧ starts_with is_delim rest.
Proof.
  induction l as [|c l (n & rest & -> & Hn & Hrest)].
  - by exists [], [].
  - destruct (decide (c = "/"%char ∨ c = "?"%char ∨ c = "#"%char))
      as [Hc|Hc].
    + by exists [], (c :: n ++ rest).
    + exists (c :: n), rest. repeat split; [|done]. by constructor.
Qed.

Lemma splitnetloc_parts url start n rest :
  (start ≤ length url)%nat →
  _splitnetloc url start = (n, rest) →
  drop start url = n ++ rest ∧ Forall (λ c, ¬ is_delim c) n
  ∧ starts_with is_delim rest.
Proof.
  intros Hstart Hsplit.
  destruct (netloc_span (drop start url)) as (n' & rest' & Heq & Hn & Hr).
  assert (url = take start url ++ n' ++ rest') as Hurl.
  { by rewrite <- Heq, take_drop. }
  rewrite Hurl in Hsplit.
  replace start with (length (take start url)) in Hsplit at 2
    by (rewrite length_take; lia).
  rewrite splitnetloc_rebuilt in Hsplit by done.
  by simplify_eq.
Qed.

(** *** The scheme *)

Ltac each_char c := destruct c as [[] [] [] [] [] [] [] []].

Lemma scheme_char_facts c :
  scheme_char c = true →
  c ≠ ":"%char ∧ safe_char c ∧ scheme_char (lower_char c) = true.
Proof. each_char c; vm_compute; intros H; try discriminate H; done. Qed.

Lemma lower_char_idemp c : lower_char (lower_char c) = lower_char c.
Proof. by each_char c. Qed.

Lemma alpha_facts c :
  is_ascii_alpha c = true →
  c0_control_or_space c = false ∧ is_ascii_alpha (lower_char c) = true.
Proof. each_char c; vm_compute; intros H; try discriminate H; done. Qed.

Lemma scheme_chars_facts s :
  forallb scheme_char s = true →
  (":"%char ∉ s) ∧ Forall safe_char s
  ∧ forallb scheme_char (lower s) = true.
Proof.
  induction s as [|c s IH]; simpl.
  - intros _. split; [apply not_elem_of_nil|done].
  - intros [Hc Hs]%andb_true_iff.
    destruct (scheme_char_facts c Hc) as (Hcolon & Hsafe & Hlow).
    destruct (IH Hs) as (Hcolons & Hsafes & Hlows).
    split; [|split].
    + rewrite not_elem_of_cons. split; [congruence|done].
    + by constructor.
    + unfold lower in *. simpl. by rewrite Hlow, Hlows.
Qed.

Lemma lower_idemp s : lower (lower s) = lower s.
Proof.
  unfold lower. rewrite <- list_fmap_compose. apply list_fmap_ext.
  intros _ c _. apply lower_char_idemp.
Qed.

Lemma split_scheme_rebuilt s rest default_scheme :
  clean_scheme s →
  split_scheme (s ++ ":"%char :: rest) default_scheme = (s, rest).
Proof.
  intros [(c & s' & -> & Hc) Hchars Hlow]. unfold split_scheme.
  destruct (scheme_chars_facts _ Hchars) as (Hcolon & _ & _).
  rewrite find_fresh by done.
  assert (take (S (length s')) ((c :: s') ++ ":"%char :: rest) = c :: s')
    as Htake by apply (take_app_length (c :: s')).
  assert (drop (S (S (length s'))) ((c :: s') ++ ":"%char :: rest) = rest)
    as Hdrop.
  { rewrite (cons_middle ":"%char (c :: s') rest), app_assoc.
    apply drop_app_length'. rewrite length_app. simpl. lia. }
  cbn [length]. rewrite Htake, Hdrop.
  cbn [app head default id]. by rewrite Hc, Hchars, Hlow.
Qed.

(** A scheme was found only by the branch that takes it from the URL. *)
Lemma split_scheme_parts url s rest :
  split_scheme url [] = (s, rest) → s ≠ [] →
  clean_scheme s ∧ ∃ k, rest = drop k url.
Proof.
  unfold split_scheme.
  destruct (find ":" url) as [[|i]|] eqn:Hfind;
    try (intros [= <- <-]; done).
  destruct (is_ascii_alpha _ && _) eqn:Hok;
    [|intros [= <- <-]; done].
  apply andb_true_iff in Hok as [Halpha Hchars].
  intros [= <- <-] _. split; [|by eexists].
  destruct url as [|c url]; [done|]. simpl in Halpha.
  destruct (alpha_facts c Halpha) as [_ Hlow].
  destruct (scheme_chars_facts _ Hchars) as (_ & _ & Hlows).
  split.
  - exists (lower_char c), (lower (take i url)). by split.
  - done.
  - apply lower_idemp.
Qed.

(** *** Parsing a URL put together from clean components *)
Section Normalize.
Variable checks : HostChecks.

Lemma clean_path_take i p : clean_path p → clean_path (take i p).
Proof.
  intros [Hc Hs Ha]. split; try by apply Forall_take.
  destruct p as [|c p]; [by destruct i|]. by destruct i.
Qed.

Lemma clean_path_fresh p :
  clean_path p → ("#"%char ∉ p) ∧ ("?"%char ∉ p).
Proof.
  intros [Hc _ _]. split; intros Hin;
    by destruct (proj1 (Forall_forall _ _) Hc _ Hin).
Qed.

Lemma urlsplit_rebuilt s n p :
  clean_scheme s → clean_netloc checks n → clean_path p →
  urlsplit checks (s ++ str "://" ++ n ++ p) []
  = Some {| s_scheme := s; s_netloc := n; s_path := p;
            s_query := []; s_fragment := [] |}.
Proof.
  intros Hs [Hnd Hns Hnb Hnc] Hp. unfold urlsplit.
  destruct (cs_alpha _ Hs) as (c & s' & -> & Hc).
  destruct (alpha_facts c Hc) as [Hc0 _].
  destruct (scheme_chars_facts _ (cs_chars _ Hs)) as (_ & Hsafe & _).
  assert (lstrip c0_control_or_space ((c :: s') ++ str "://" ++ n ++ p)
          = (c :: s') ++ str "://" ++ n ++ p) as ->.
  { simpl. by rewrite Hc0. }
  rewrite remove_unsafe_id.
  2:{ repeat (apply Forall_app; split); try done; [|by destruct Hp].
      repeat constructor; done. }
  change (str "://" ++ n ++ p) with (":"%char :: str "//" ++ n ++ p).
  rewrite split_scheme_rebuilt by done.
  unfold split_netloc.
  rewrite bool_decide_eq_true_2 by done.
  change 2%nat with (length (str "//")).
  rewrite splitnetloc_rebuilt; [|done|].
  2:{ destruct Hp as [_ _ Ha]. destruct p; [done|]. simpl in *. by left. }
  rewrite Hnb. simpl.
  destruct (clean_path_fresh p Hp) as [Hfrag Hquery].
  rewrite (split_at_fresh "#" p), (split_at_fresh "?" p) by done.
  by rewrite Hnc.
Qed.

Lemma splitparams_prefix p : ∃ i, (_splitparams p).1 = take i p.
Proof.
  unfold _splitparams.
  destruct (contains "/" p); [destruct (find_from _ _ _)|destruct (find _ _)];
    simpl; eauto; exists (length p); by rewrite firstn_all.
Qed.

(** *** The components of a parsed URL *)

Lemma urlsplit_parts u r :
  urlsplit checks u [] = Some r → s_scheme r ≠ [] → s_netloc r ≠ [] →
  clean_scheme (s_scheme r) ∧ clean_netloc checks (s_netloc r)
  ∧ clean_path (s_path r).
Proof.
  unfold urlsplit.
  set (url2 := remove_unsafe (lstrip c0_control_or_space u)).
  change (remove_unsafe (strip c0_control_or_space [])) with (@nil ascii).
  pose proof (remove_unsafe_safe (lstrip c0_control_or_space u)) as Hsafe2.
  fold url2 in Hsafe2.
  destruct (split_scheme url2 []) as [s url3] eqn:Hscheme.
  unfold split_netloc.
  case_bool_decide as Hslashes.
  2:{ simpl. destruct (split_at "#" url3), (split_at "?" _).
      intros [= <-] _ Hn. by destruct Hn. }
  destruct (_splitnetloc url3 2) as [n url4] eqn:Hnetloc.
  destruct (brackets_ok checks n) eqn:Hbr; [|done]. simpl.
  destruct (split_at_prefix "#" url4) as (i & Hi & Hfrag).
  destruct (split_at "#" url4) as [url5 frag]. simpl in Hi, Hfrag.
  destruct (split_at_prefix "?" url5) as (j & Hj & Hquery).
  destruct (split_at "?" url5) as [url6 q]. simpl in Hj, Hquery.
  destruct (_checknetloc checks n) eqn:Hchk; [|done].
  intros [= <-] Hs Hn. simpl in *.
  destruct (split_scheme_parts _ _ _ Hscheme Hs) as (Hclean & k & ->).
  assert (Hlen : (2 ≤ length (drop k url2))%nat).
  { pose proof (length_take (drop k url2) 2) as Hl.
    rewrite Hslashes in Hl. change (length (str "//")) with 2%nat in Hl.
    lia. }
  destruct (splitnetloc_parts _ _ _ _ Hlen Hnetloc) as (Heq & Hnd & Hrest).
  assert (Hsafe4 : Forall safe_char (n ++ url4)).
  { rewrite <- Heq. by apply Forall_drop, Forall_drop. }
  apply Forall_app in Hsafe4 as [Hsafen Hsafe4].
  split; [done|]. split; [by split|].
  subst url5 url6. split.
  - apply Forall_forall. intros c Hc. split; intros ->.
    + apply Hfrag. by eapply subseteq_take.
    + done.
  - by apply Forall_take, Forall_take.
  - destruct url4 as [|c url4]; [by destruct i, j|].
    destruct i as [|i]; [by destruct j|]. destruct j as [|j]; [done|].
    simpl in *. destruct Hrest as [-> | [-> | ->]]; [done|..].
    + destruct Hquery. by left.
    + destruct Hfrag. by left.
Qed.

Lemma urlparse_parts u r :
  urlparse checks u = Some r → scheme r ≠ [] → netloc r ≠ [] →
  clean_scheme (scheme r) ∧ clean_netloc checks (netloc r)
  ∧ clean_path (path r).
Proof.
  unfold urlparse, urlparse_with.
  destruct (urlsplit checks u []) as [sr|] eqn:Hsplit; [|done]. simpl.
  destruct (splitparams_prefix (s_path sr)) as (i & Hi).
  destruct (_ && _).
  - destruct (_splitparams (s_path sr)) as [p prm]. simpl in Hi.
    intros [= <-] Hs Hn. simpl in *.
    destruct (urlsplit_parts _ _ Hsplit Hs Hn) as (? & ? & ?).
    split; [done|]. split; [done|]. subst p. by apply clean_path_take.
  - intros [= <-] Hs Hn. simpl in *. by apply (urlsplit_parts u).
Qed.


(** *** [_normalize_url] *)

Lemma normalize_shape u r :
  urlparse checks u = Some r →
  _normalize_url checks u
  = scheme r ++ str "://" ++ netloc r ++ strip_slash (path r).
Proof.
  intros Hparse. unfold _normalize_url, strip_slash. rewrite Hparse.
  destruct (1 <? Z.of_nat (length (path r))) eqn:Hlen.
  2:{ by rewrite !andb_false_r. }
  rewrite !andb_true_r. apply Z.ltb_lt in Hlen.
  assert (path r ≠ []) as Hne by (intros Hnil; rewrite Hnil in Hlen; done).
  unfold endswith, drop_last. rewrite !(app_assoc _ _ (path r)).
  rewrite last_app. destruct (last (path r)) as [c|] eqn:Hlast.
  - case_bool_decide; [|by rewrite <- !app_assoc].
    rewrite removelast_app by done. by rewrite <- !app_assoc.
  - by apply last_None in Hlast.
Qed.

Lemma strip_slash_prefix p : ∃ i, strip_slash p = take i p.
Proof.
  unfold strip_slash, drop_last. destruct (_ && _).
  - exists (pred (length p)). apply removelast_firstn_len.
  - exists (length p). by rewrite firstn_all.
Qed.

Lemma strip_slash_idemp p :
  ¬ str "//" `suffix_of` p → strip_slash (strip_slash p) = strip_slash p.
Proof.
  intros Hp. unfold strip_slash at 2 3.
  destruct (endswith "/" p && _) eqn:Hcond; [|by unfold strip_slash; rewrite Hcond].
  apply andb_true_iff in Hcond as [Hend _].
  apply bool_decide_eq_true, last_Some in Hend as [q ->].
  unfold drop_last. rewrite removelast_last. unfold strip_slash.
  destruct (endswith "/" q) eqn:Hq; [|done].
  apply bool_decide_eq_true, last_Some in Hq as [q' ->].
  destruct Hp. exists q'. by rewrite <- app_assoc.
Qed.

(** C10, as the code has it.  For a URL that parses with a scheme and a
    network location, and whose path has no [;] and does not end in
    [//], normalizing the normalized URL gives the normalized URL. *)
Theorem normalize_idempotent u r :
  urlparse checks u = Some r →
  scheme r ≠ [] → netloc r ≠ [] →
  ";"%char ∉ path r → ¬ str "//" `suffix_of` path r →
  _normalize_url checks (_normalize_url checks u) = _normalize_url checks u.
Proof.
  intros Hparse Hs Hn Hsemi Hslashes.
  destruct (urlparse_parts u r Hparse Hs Hn) as (Hcs & Hcn & Hcp).
  rewrite (normalize_shape u r Hparse).
  destruct (strip_slash_prefix (path r)) as [i Hi].
  assert (clean_path (strip_slash (path r))) as Hcp'.
  { rewrite Hi. by apply clean_path_take. }
  assert (urlparse checks
            (scheme r ++ str "://" ++ netloc r ++ strip_slash (path r))
          = Some {| scheme := scheme r; netloc := netloc r;
                    path := strip_slash (path r); params := [];
                    query := []; fragment := [] |}) as Hagain.
  { unfold urlparse, urlparse_with. rewrite urlsplit_rebuilt by done.
    simpl.
    assert (contains ";" (strip_slash (path r)) = false) as ->.
    { apply contains_false. rewrite Hi. intros Hin. apply Hsemi.
      by eapply subseteq_take. }
    by rewrite andb_false_r. }
  rewrite (normalize_shape _ _ Hagain). simpl.
  by rewrite strip_slash_idemp.
Qed.

(** *** Fragments *)

Lemma lstrip_before_mark m u t :
  m = "?"%char ∨ m = "#"%char →
  lstrip c0_control_or_space (u ++ m :: t)
  = lstrip c0_control_or_space u ++ m :: t.
Proof.
  intros Hm. induction u as [|c u IH]; simpl.
  - by destruct Hm as [-> | ->].
  - by destruct (c0_control_or_space c).
Qed.

Lemma remove_unsafe_fresh c s : c ∉ s → c ∉ remove_unsafe s.
Proof.
  intros Hs Hin. apply Hs. unfold remove_unsafe, remove in Hin.
  by repeat apply list_elem_of_filter in Hin as [_ Hin].
Qed.

Lemma lstrip_fresh c p s : c ∉ s → c ∉ lstrip p s.
Proof.
  intros Hs. induction s as [|x s IH]; simpl; [done|].
  destruct (p x); [|done]. apply IH. intros Hin. apply Hs. by right.
Qed.

Lemma find_lt c s i : find c s = Some i → (i < length s)%nat.
Proof.
  intros [_ Heq]%find_Some. apply (f_equal length) in Heq.
  rewrite length_app, length_take in Heq. simpl in Heq. lia.
Qed.

Lemma split_scheme_before_mark m url g default_scheme :
  m = "?"%char ∨ m = "#"%char →
  split_scheme (url ++ m :: g) default_scheme
  = ((split_scheme url default_scheme).1,
     (split_scheme url default_scheme).2 ++ m :: g).
Proof.
  intros Hm. unfold split_scheme. rewrite find_app.
  destruct (find ":" url) as [i|] eqn:Hfind.
  - pose proof (find_lt _ _ _ Hfind) as Hlt.
    destruct i as [|i]; [done|].
    destruct url as [|c url]; [done|]. simpl in Hlt.
    rewrite take_app_le by (simpl; lia).
    cbn [app head default].
    destruct (_ && _); [|done]. simpl.
    by rewrite drop_app_le by lia.
  - assert (find ":" (m :: g) = S <$> find ":" g) as ->
      by by destruct Hm as [-> | ->].
    destruct (find ":" g) as [j|]; cbn [fmap option_fmap option_map];
      [|done].
    replace (length url + S j)%nat with (S (length url + j)) by lia.
    cbv beta iota zeta.
    assert (forallb scheme_char
              (take (S (length url + j)) (url ++ m :: g)) = false)
      as ->; [|by rewrite andb_false_r].
    replace (S (length url + j)) with (length url + S j)%nat by lia.
    rewrite take_app_add, forallb_app.
    destruct Hm as [-> | ->]; simpl; apply andb_false_r.
Qed.

Lemma split_netloc_before_mark m url g :
  m = "?"%char ∨ m = "#"%char →
  split_netloc checks (url ++ m :: g)
  = (λ '(n, rest), (n, rest ++ m :: g)) <$> split_netloc checks url.
Proof.
  intros Hm. unfold split_netloc.
  destruct (bool_decide (take 2 url = str "//")) eqn:Hslashes.
  - apply bool_decide_eq_true in Hslashes.
    destruct url as [|c1 [|c2 url]]; try done.
    injection Hslashes as -> ->.
    rewrite bool_decide_eq_true_2 by done.
    destruct (netloc_span url) as (n & rest & -> & Hn & Hrest).
    change ("/"%char :: "/"%char :: n ++ rest)
      with (str "//" ++ n ++ rest).
    change 2%nat with (length (str "//")).
    rewrite splitnetloc_rebuilt by done.
    rewrite <- !app_assoc. rewrite splitnetloc_rebuilt; [|done|].
    + by destruct (brackets_ok checks n).
    + destruct rest; simpl in *; [|done]. by right.
  - apply bool_decide_eq_false in Hslashes.
    rewrite bool_decide_eq_false_2; [done|].
    intros Heq. apply Hslashes.
    destruct url as [|c1 [|c2 url]]; try done;
      destruct Hm as [-> | ->]; done.
Qed.

Lemma split_scheme_fresh c url default_scheme :
  c ∉ url → c ∉ (split_scheme url default_scheme).2.
Proof.
  intros Hc. unfold split_scheme.
  destruct (find ":" url) as [[|i]|]; try done.
  destruct (_ && _); [|done]. simpl. intros Hin. apply Hc.
  by eapply subseteq_drop.
Qed.

Lemma split_netloc_fresh c url n rest :
  c ∉ url → split_netloc checks url = Some (n, rest) → c ∉ rest.
Proof.
  intros Hc. unfold split_netloc. case_bool_decide as Hsl.
  - destruct (_splitnetloc url 2) as [n' rest'] eqn:Hnl.
    destruct (brackets_ok checks n'); [|done]. intros [= -> ->].
    assert (2 ≤ length url)%nat as Hlen.
    { pose proof (length_take url 2) as Hl. rewrite Hsl in Hl.
      change (length (str "//")) with 2%nat in Hl. lia. }
    destruct (splitnetloc_parts _ _ _ _ Hlen Hnl) as (Heq & _ & _).
    intros Hin. apply Hc. eapply (subseteq_drop 2). rewrite Heq.
    apply elem_of_app. by right.
  - by intros [= <- <-].
Qed.

Lemma split_at_mark c a b : c ∉ a → split_at c (a ++ c :: b) = (a, b).
Proof.
  intros Ha. unfold split_at, split1.
  assert (contains c (a ++ c :: b) = true) as ->.
  { apply contains_true, elem_of_app. right. by left. }
  rewrite find_fresh by done.
  by rewrite take_app_length, (cons_middle c), app_assoc, drop_app_length'
    by (rewrite length_app; simpl; lia).
Qed.

Lemma split_at_app c a b :
  c ∉ a → (split_at c (a ++ b)).1 = a ++ (split_at c b).1.
Proof.
  intros Ha. unfold split_at, split1, contains.
  destruct (decide (c ∈ b)) as [Hb|Hb].
  - rewrite !bool_decide_eq_true_2; [|done|apply elem_of_app; by right].
    rewrite find_app. apply find_None in Ha as ->.
    destruct (find c b) as [j|] eqn:Hj; simpl; [|by apply find_None in Hj].
    apply take_app_add.
  - rewrite !bool_decide_eq_false_2; [done|done|].
    rewrite elem_of_app. tauto.
Qed.

(** Text after a [#], and text after a [?] where there was none, has no
    part in the scheme, the network location and the path. *)
Lemma urlsplit_before_mark m u t default_scheme :
  m = "?"%char ∨ m = "#"%char →
  "#"%char ∉ u → (m = "?"%char → "?"%char ∉ u) →
  location <$> urlsplit checks (u ++ m :: t) default_scheme
  = location <$> urlsplit checks u default_scheme.
Proof.
  intros Hm Hfrag Hquery. unfold urlsplit.
  rewrite lstrip_before_mark, remove_unsafe_app by done.
  set (url2 := remove_unsafe (lstrip c0_control_or_space u)).
  assert (∀ c, c ∉ u → c ∉ url2) as H2.
  { intros c Hc. by apply remove_unsafe_fresh, lstrip_fresh. }
  assert (remove_unsafe (m :: t) = m :: remove_unsafe t) as ->
    by by destruct Hm as [-> | ->].
  rewrite split_scheme_before_mark by done.
  set (d := remove_unsafe (strip c0_control_or_space default_scheme)).
  pose proof (λ c Hc, split_scheme_fresh c url2 d (H2 c Hc)) as H3.
  destruct (split_scheme url2 d) as [s url3]. simpl in *.
  rewrite split_netloc_before_mark by done.
  pose proof (λ c Hc n url4, split_netloc_fresh c url3 n url4 (H3 c Hc))
    as H4.
  destruct (split_netloc checks url3) as [[n url4]|]; [|done]. simpl.
  assert ("#"%char ∉ url4) as Hfrag4 by by eapply H4.
  rewrite (split_at_fresh "#" url4) by done.
  unfold location. destruct Hm as [-> | ->].
  - assert ("?"%char ∉ url4) as Hquery4 by (eapply H4; eauto).
    pose proof (split_at_app "#" url4 ("?"%char :: remove_unsafe t) Hfrag4)
      as Hsplit.
    destruct (split_at "#" (url4 ++ _)) as [url5 frag]. simpl in Hsplit.
    assert (∃ q, url5 = url4 ++ "?"%char :: q) as [q ->].
    { rewrite Hsplit. unfold split_at, split1.
      destruct (contains "#" _); [|by eexists].
      change (find "#" ("?"%char :: remove_unsafe t))
        with (S <$> find "#" (remove_unsafe t)).
      destruct (find "#" (remove_unsafe t)); simpl; by eexists. }
    rewrite split_at_mark, (split_at_fresh "?" url4) by done.
    by destruct (_checknetloc checks n).
  - rewrite split_at_mark by done.
    destruct (split_at "?" url4). by destruct (_checknetloc checks n).
Qed.

Lemma normalize_by_location a b :
  location <$> urlsplit checks a [] = location <$> urlsplit checks b [] →
  is_Some (urlparse checks b) →
  _normalize_url checks a = _normalize_url checks b.
Proof.
  unfold _normalize_url, urlparse, urlparse_with, location.
  destruct (urlsplit checks a []) as [ra|], (urlsplit checks b [])
    as [rb|]; simpl; try done.
  intros [= -> -> ->] _.
  by destruct (_ && _); [destruct (_splitparams (s_path rb))|].
Qed.

(** When the URL up to its fragment parses, the fragment has no part in
    the normalized URL, and neither has the query: what is lost at the
    two URLs of [normalize_drops_query] below is lost at every URL. *)
Lemma normalize_ignores_fragment_and_query u :
  "#"%char ∉ u → is_Some (urlparse checks u) →
  (∀ fragment,
     _normalize_url checks (u ++ "#"%char :: fragment)
     = _normalize_url checks u)
  ∧ ("?"%char ∉ u →
     ∀ query_and_fragment,
       _normalize_url checks (u ++ "?"%char :: query_and_fragment)
       = _normalize_url checks u).
Proof.
  intros Hfrag Hparse. split.
  - intros f. apply normalize_by_location; [|done].
    apply urlsplit_before_mark; [by right|done|done].
  - intros Hquery t. apply normalize_by_location; [|done].
    apply urlsplit_before_mark; [by left|done|done].
Qed.

End Normalize.

Lemma normalize_idempotent_witness :
  let r := {| scheme := str "https"; netloc := str "a.com";
              path := str "/docs/"; params := []; query := str "page=2";
              fragment := str "top" |} in
  urlparse lenient (str "https://a.com/docs/?page=2#top") = Some r
  ∧ _normalize_url lenient
      (_normalize_url lenient (str "https://a.com/docs/?page=2#top"))
    = _normalize_url lenient (str "https://a.com/docs/?page=2#top").
Proof.
  intros r. split; [reflexivity|].
  apply (normalize_idempotent lenient _ r); [reflexivity|done|done|..].
  - apply (bool_decide_unpack _). vm_compute. exact I.
  - apply (bool_decide_unpack _). vm_compute. exact I.
Defined.

(** C10, as stated, fails: both URLs have the scheme [http] and the host
    [a.com]; normalizing the first gives a URL that still ends in [/],
    normalizing the second uncovers the parameter [;a]; a second
    normalization changes both again. *)
Lemma normalize_twice_differs :
  (scheme <$> urlparse lenient (str "http://a.com/x//") = Some (str "http")
   ∧ netloc <$> urlparse lenient (str "http://a.com/x//")
     = Some (str "a.com")
   ∧ _normalize_url lenient (str "http://a.com/x//") = str "http://a.com/x/"
   ∧ _normalize_url lenient (str "http://a.com/x/") = str "http://a.com/x")
  ∧ (scheme <$> urlparse lenient (str "http://a.com/x;a/;b")
     = Some (str "http")
     ∧ netloc <$> urlparse lenient (str "http://a.com/x;a/;b")
       = Some (str "a.com")
     ∧ _normalize_url lenient (str "http://a.com/x;a/;b")
       = str "http://a.com/x;a"
     ∧ _normalize_url lenient (str "http://a.com/x;a") = str "http://a.com/x").
Proof. repeat split; vm_compute; reflexivity. Qed.

(** C1 at two URLs that differ only in the query.  Parsed, they have
    the queries [x=1] and [x=2] and agree in every other component;
    [_normalize_url] returns [https://a.com/p] for both, whatever the
    validations of the library answer, where the claim has two different
    strings that keep the query.  The fragment is removed as claimed. *)
Theorem normalize_drops_query (checks : HostChecks) :
  let one := str "https://a.com/p?x=1" in
  let two := str "https://a.com/p?x=2" in
  let but_query := λ r : ParseResult,
    (scheme r, netloc r, path r, params r, fragment r) in
  one ≠ two
  ∧ query <$> urlparse checks one = Some (str "x=1")
  ∧ query <$> urlparse checks two = Some (str "x=2")
  ∧ but_query <$> urlparse checks one = but_query <$> urlparse checks two
  ∧ _normalize_url checks one = str "https://a.com/p"
  ∧ _normalize_url checks two = str "https://a.com/p"
  ∧ _normalize_url checks (str "https://a.com/p?x=1#top")
    = str "https://a.com/p".
Proof.
  intros one two but_query. split; [done|].
  repeat split; vm_compute; reflexivity.
Qed.

(** What the lost query does to a crawl: the second page of a list,
    which its first page links to, is taken for visited and is never
    requested, although the site has it and the budget admits it. *)
Lemma second_page_never_requested :
  init lenient Paging.first 3 100
  = Some {| base_url := Paging.first; max_depth := 3; max_pages := 100;
            visited_urls := ∅; crawled_data := [];
            base_domain := str "site.test"; indexed_count := 0;
            requests := [] |}
  ∧ is_Some (Paging.site [Paging.first] Paging.second)
  ∧ (requests <$> (crawler ← init lenient Paging.first 3 100;
                   crawl_loop lenient Paging.site 5 crawler
                     [(Paging.first, 0)]))
    = Some [Paging.first].
Proof.
  split; [reflexivity|]. split; [by eexists|]. vm_compute. reflexivity.
Qed.

(** The network locations of the examples are ASCII and have no
    brackets, so that the library validations are not consulted: the
    normalized URLs are the same whatever they answer. *)
Lemma examples_for_all_checks (checks : HostChecks) :
  _normalize_url checks (str "https://a.com/p?x=1") = str "https://a.com/p"
  ∧ _normalize_url checks (str "https://a.com/p?x=2") = str "https://a.com/p"
  ∧ _normalize_url checks (str "http://a.com/x//") = str "http://a.com/x/"
  ∧ _normalize_url checks (str "http://a.com/x/") = str "http://a.com/x"
  ∧ _normalize_url checks (str "http://a.com/x;a/;b")
    = str "http://a.com/x;a"
  ∧ _normalize_url checks (str "http://a.com/x;a") = str "http://a.com/x"
  ∧ _normalize_url checks (str "http://[a#x") = str "http://[a#x".
Proof. repeat split; vm_compute; reflexivity. Qed.

(** ** Sessions *)
Section VectorStoreProofs.
Variables Index Document LibError : Type.
Variable index_search : Index → pystr → Z → LibError + list Document.

Abbreviation search := (VectorStore.similarity_search index_search).

(** C9. A search on a handle without an index, neither in memory nor
    under the session's directory, fails with the error "No vector store
    found"; on a handle with an index the search is the index's own
    search, whose results are returned, the index stays attached, and the
    error "No vector store found" does not occur. *)
Theorem search_not_ready storage self query k :
  match handle_index storage self with
  | None => (search storage self query k).2 = inl VectorStore.NoVectorStore
  | Some index =>
      (search storage self query k).2
      = match index_search index query k with
        | inl e => inl (VectorStore.Library e)
        | inr results => inr results
        end
      ∧ (search storage self query k).2 ≠ inl VectorStore.NoVectorStore
      ∧ VectorStore.vector_store (search storage self query k).1
        = Some index
  end.
Proof.
  unfold handle_index, VectorStore.similarity_search,
    VectorStore.load_vector_store.
  destruct self as [sid [index|]]; simpl.
  - by destruct (index_search index query k).
  - destruct (storage !! sid) as [[[[index|]|]]|]; simpl; try done.
    by destruct (index_search index query k).
Qed.

End VectorStoreProofs.

Section ChatServiceProofs.
Context {Index : Type}.

(** Deleting a session the [chat_manager] holds removes it from the
    manager and removes its directory. *)
Lemma delete_registered_session (app : ChatService.App Index) sid session :
  ChatService.sessions app !! sid = Some session →
  VectorStore.session_id (ChatService.vector_manager session) = sid →
  let app' := ChatService.delete_session app sid in
  ChatService.sessions app' !! sid = None
  ∧ ChatService.storage app' !! sid = None.
Proof.
  intros Hs Hid. unfold ChatService.delete_session. rewrite Hs. simpl.
  split; [apply lookup_delete_eq|].
  unfold VectorStore.delete_session. rewrite Hid.
  destruct (ChatService.storage app !! sid) eqn:Hd; [|done].
  apply lookup_delete_eq.
Qed.

(** Deleting a session the [chat_manager] does not hold changes
    nothing. *)
Lemma delete_unregistered_session (app : ChatService.App Index) sid :
  ChatService.sessions app !! sid = None →
  ChatService.delete_session app sid = app.
Proof. intros Hs. unfold ChatService.delete_session. by rewrite Hs. Qed.

End ChatServiceProofs.

(** C7 at a session that was crawled and never chatted with: its
    directory, with the saved index, is in the storage, the manager does
    not hold it, and deleting it leaves the directory where it is. *)
Theorem delete_leaves_crawled_session :
  ChatService.storage Sessions.crawled !! Sessions.s1
  = Some {| VectorStore.faiss_index :=
              Some (VectorStore.Saved [Sessions.one_page]) |}
  ∧ ChatService.sessions Sessions.crawled !! Sessions.s1 = None
  ∧ ChatService.delete_session Sessions.crawled Sessions.s1
    = Sessions.crawled.
Proof.
  split; [|split].
  - unfold Sessions.crawled, ChatService.crawl_endpoint_store,
      VectorStore.create_vector_store. simpl. apply lookup_insert_eq.
  - done.
  - by apply delete_unregistered_session.
Qed.


(** * Further properties of the program *)

(** ** The crawl loop: domain, depth and order *)
Section CrawlerMore.
Variable checks : HostChecks.
Variable arun : list pystr → pystr → option CrawlResult.

Lemma crawl_page_base_domain self u d :
  base_domain (crawl_page checks arun self u d).1 = base_domain self.
Proof.
  unfold crawl_page. destruct (_ || _); [done|].
  case_bool_decide; [done|].
  destruct (arun _ u) as [result|]; [|done].
  by destruct (success result && _).
Qed.

Lemma same_domain_base a b u :
  base_domain a = base_domain b →
  _is_same_domain checks a u = _is_same_domain checks b u.
Proof. intros Hb. unfold _is_same_domain. by rewrite Hb. Qed.

Lemma internal_links_domain self u raw_links acc :
  Forall (λ l, _is_same_domain checks self l = true) acc →
  Forall (λ l, _is_same_domain checks self l = true)
    (foldl (λ internal_links link,
              match internal_link checks self u link with
              | Some absolute_url => internal_links ++ [absolute_url]
              | None => internal_links
              end) acc raw_links).
Proof.
  revert acc.
  induction raw_links as [|link raw IH]; intros acc Hacc; simpl; [done|].
  apply IH. destruct (internal_link checks self u link) as [a|] eqn:Hl;
    [|done].
  apply Forall_app; split; [done|]. apply Forall_singleton.
  unfold internal_link in Hl.
  destruct (urljoin_val checks u link) as [[| | |a'| |]|]; try done.
  destruct (_is_same_domain checks self a') eqn:Hd; [|done].
  case_bool_decide; [|done]. by simplify_eq.
Qed.

Lemma crawl_page_found_domain self u d :
  Forall (λ l, _is_same_domain checks self l = true)
    (crawl_page checks arun self u d).2.
Proof.
  unfold crawl_page. destruct (_ || _); [done|].
  case_bool_decide; [done|].
  destruct (arun _ u) as [result|]; [|done].
  destruct (success result && _); [|done]. simpl.
  eapply Forall_impl; [by apply internal_links_domain|].
  intros l Hl. by rewrite <- Hl.
Qed.

Lemma loop_body_base_domain self queue :
  base_domain (loop_body checks arun self queue).1 = base_domain self.
Proof.
  unfold loop_body. destruct queue as [|[u d] rest]; [done|].
  destruct (max_depth self <? d); [done|].
  pose proof (crawl_page_base_domain self u d) as Hb.
  by destruct (crawl_page checks arun self u d).
Qed.

Lemma loop_body_domain self queue :
  domain_inv checks self queue →
  domain_inv checks (loop_body checks arun self queue).1
    (loop_body checks arun self queue).2.
Proof.
  intros [Hreq Hq].
  pose proof (loop_body_base_domain self queue) as Hbase.
  assert (∀ u, _is_same_domain checks
                 (loop_body checks arun self queue).1 u
               = _is_same_domain checks self u) as Hsame
    by (intros u; by apply same_domain_base).
  revert Hsame. clear Hbase. unfold loop_body.
  destruct queue as [|[u d] rest]; [by intros _|].
  apply Forall_cons in Hq as [Hu Hrest]. simpl in Hu.
  destruct (max_depth self <? d); [by intros _|].
  pose proof (crawl_page_outcome checks arun self u d) as Hout.
  pose proof (crawl_page_found_domain self u d) as Hfound.
  destruct (crawl_page checks arun self u d) as [self' found].
  simpl in *. intros Hsame. rewrite enqueue_links. split.
  - eapply Forall_impl; [|intros x Hx; rewrite Hsame; exact Hx].
    destruct Hout as [|self' found _ _ _ _ Hr _ _ _ _]; [done|].
    rewrite Hr. apply Forall_app. split; [done|]. by apply Forall_singleton.
  - eapply Forall_impl; [|intros x Hx; rewrite Hsame; exact Hx].
    apply Forall_app. split; [done|].
    destruct (_ <? _); [|done]. by apply Forall_fmap.
Qed.

Lemma after_iterations_domain n self queue :
  domain_inv checks self queue →
  domain_inv checks (after_iterations checks arun n self queue).1
    (after_iterations checks arun n self queue).2
  ∧ base_domain (after_iterations checks arun n self queue).1
    = base_domain self.
Proof.
  revert self queue. induction n as [|n IH]; intros self queue Hinv;
    simpl; [done|].
  destruct (loop_cond self queue); [|done].
  pose proof (loop_body_domain self queue Hinv) as Hstep.
  pose proof (loop_body_base_domain self queue) as Hbase.
  destruct (loop_body checks arun self queue) as [self' queue'].
  simpl in *. destruct (IH self' queue' Hstep) as [? ?].
  split; [done|congruence].
Qed.

Lemma init_domain base depth_limit page_limit self :
  init checks base depth_limit page_limit = Some self →
  domain_inv checks self [(base, 0)].
Proof.
  unfold init. destruct (urlparse checks base) as [parsed|] eqn:Hp; [|done].
  intros [= <-]. split; [done|]. apply Forall_singleton. simpl.
  unfold _is_same_domain. rewrite Hp. simpl. by apply bool_decide_eq_true.
Qed.

(** X1. The crawler stays on the base domain: after any number of
    iterations of a run, and at its end, every URL that was requested,
    and every URL in the frontier, parses with the network location of
    the base URL. *)
Theorem crawl_stays_on_domain base depth_limit page_limit self :
  init checks base depth_limit page_limit = Some self →
  (∀ n,
     Forall (λ u, ∃ parsed,
               urlparse checks u = Some parsed
               ∧ netloc parsed = base_domain self)
       (requests (after_iterations checks arun n self [(base, 0)]).1
        ++ (after_iterations checks arun n self [(base, 0)]).2.*1))
  ∧ (∀ fuel final log ret,
       crawl_website checks arun fuel self = Some (final, log, ret) →
       Forall (λ u, ∃ parsed,
                 urlparse checks u = Some parsed
                 ∧ netloc parsed = base_domain self)
         (requests final)).
Proof.
  intros Hinit.
  assert (∀ n,
     Forall (λ u, ∃ parsed,
               urlparse checks u = Some parsed
               ∧ netloc parsed = base_domain self)
       (requests (after_iterations checks arun n self [(base, 0)]).1
        ++ (after_iterations checks arun n self [(base, 0)]).2.*1))
    as Hall.
  { intros n.
    destruct (after_iterations_domain n self _ (init_domain _ _ _ _ Hinit))
      as [[Hreq Hq] Hbase].
    assert (∀ u, _is_same_domain checks
                   (after_iterations checks arun n self [(base, 0)]).1 u
                 = true →
                 ∃ parsed, urlparse checks u = Some parsed
                           ∧ netloc parsed = base_domain self) as Hsame.
    { intros u. unfold _is_same_domain. rewrite Hbase.
      destruct (urlparse checks u) as [parsed|]; [|done].
      intros ?%bool_decide_eq_true. by exists parsed. }
    apply Forall_app. split.
    - eapply Forall_impl; [exact Hreq|]. intros u. apply Hsame.
    - apply Forall_fmap. eapply Forall_impl; [exact Hq|].
      intros e. apply Hsame. }
  split; [done|].
  intros fuel final log ret. unfold crawl_website.
  destruct (crawl_loop _ _ fuel self _) as [final'|] eqn:Hrun; [|done].
  simpl. intros [= <- <- <-].
  apply crawl_loop_after in Hrun as ->.
  destruct (init_inv _ _ _ _ _ Hinit) as (_ & -> & _).
  specialize (Hall fuel). by apply Forall_app in Hall as [? _].
Qed.

(** *** The depth of the frontier *)

Lemma loop_body_depth self queue :
  Forall (λ e, 0 ≤ e.2 ≤ max_depth self + 1) queue →
  Forall (λ e, 0 ≤ e.2 ≤ max_depth self + 1)
    (loop_body checks arun self queue).2.
Proof.
  intros Hq. unfold loop_body. destruct queue as [|[u d] rest]; [done|].
  apply Forall_cons in Hq as [Hd Hrest]. simpl in Hd.
  destruct (max_depth self <? d) eqn:Hlt; [done|]. apply Z.ltb_ge in Hlt.
  destruct (crawl_page checks arun self u d) as [self' found].
  rewrite enqueue_links. apply Forall_app. split; [done|].
  destruct (_ <? _); [|done]. apply Forall_fmap, Forall_forall.
  intros l _. simpl. lia.
Qed.

Lemma after_iterations_depth n self queue :
  Forall (λ e, 0 ≤ e.2 ≤ max_depth self + 1) queue →
  Forall (λ e, 0 ≤ e.2 ≤ max_depth self + 1)
    (after_iterations checks arun n self queue).2.
Proof.
  revert self queue. induction n as [|n IH]; intros self queue Hq;
    simpl; [done|].
  destruct (loop_cond self queue); [|done].
  pose proof (loop_body_depth self queue Hq) as Hstep.
  pose proof (loop_body_params checks arun self queue) as (Hmd & _).
  destruct (loop_body checks arun self queue) as [self' queue'].
  simpl in *. rewrite <- Hmd. apply IH. by rewrite Hmd.
Qed.

(** X2. With [0 ≤ max_depth], no entry of the frontier is ever deeper
    than [max_depth + 1], nor at a negative depth. *)
Theorem frontier_depth_bounded base depth_limit page_limit self n :
  0 ≤ depth_limit →
  init checks base depth_limit page_limit = Some self →
  Forall (λ e, 0 ≤ e.2 ≤ depth_limit + 1)
    (after_iterations checks arun n self [(base, 0)]).2.
Proof.
  intros Hd (_ & _ & Hmd & _)%init_inv. rewrite <- Hmd.
  apply after_iterations_depth, Forall_singleton. simpl. lia.
Qed.

(** *** What a run has gathered only grows *)

Lemma loop_body_grows self queue :
  requests self `prefix_of` requests (loop_body checks arun self queue).1
  ∧ crawled_data self
    `prefix_of` crawled_data (loop_body checks arun self queue).1
  ∧ visited_urls self ⊆ visited_urls (loop_body checks arun self queue).1.
Proof.
  unfold loop_body. destruct queue as [|[u d] rest]; [done|].
  destruct (max_depth self <? d); [done|].
  pose proof (crawl_page_outcome checks arun self u d) as Hout.
  destruct (crawl_page checks arun self u d) as [self' found]. simpl in *.
  destruct Hout as [|self' found _ _ _ Hv Hr _ _ _ Hdata]; [done|].
  split; [|split].
  - rewrite Hr. by apply prefix_app_r.
  - destruct Hdata as [(-> & _)|(r & _ & _ & _ & -> & _)]; [done|].
    by apply prefix_app_r.
  - rewrite Hv. apply union_subseteq_r.
Qed.

Lemma after_iterations_add n k self queue :
  after_iterations checks arun (n + k) self queue
  = after_iterations checks arun k
      (after_iterations checks arun n self queue).1
      (after_iterations checks arun n self queue).2.
Proof.
  revert self queue. induction n as [|n IH]; intros self queue; simpl;
    [done|].
  destruct (loop_cond self queue) eqn:Hc.
  - destruct (loop_body checks arun self queue). apply IH.
  - simpl. destruct k; simpl; [done|]. by rewrite Hc.
Qed.

Lemma after_iterations_grows k self queue :
  requests self
  `prefix_of` requests (after_iterations checks arun k self queue).1
  ∧ crawled_data self
    `prefix_of` crawled_data (after_iterations checks arun k self queue).1
  ∧ visited_urls self
    ⊆ visited_urls (after_iterations checks arun k self queue).1.
Proof.
  revert self queue. induction k as [|k IH]; intros self queue; simpl;
    [done|].
  destruct (loop_cond self queue); [|done].
  pose proof (loop_body_grows self queue) as (Hr & Hd & Hv).
  destruct (loop_body checks arun self queue) as [self' queue'].
  simpl in *. destruct (IH self' queue') as (Hr' & Hd' & Hv').
  split; [|split]; by etrans.
Qed.

(** X3. Nothing a run has gathered is taken back or reordered: the
    requests and the page records after [n] iterations are the first
    requests and page records after [n + k] iterations, and the visited
    set only gains elements. *)
Theorem crawl_only_grows self queue n k :
  let earlier := (after_iterations checks arun n self queue).1 in
  let later := (after_iterations checks arun (n + k) self queue).1 in
  requests earlier `prefix_of` requests later
  ∧ crawled_data earlier `prefix_of` crawled_data later
  ∧ visited_urls earlier ⊆ visited_urls later.
Proof.
  simpl. rewrite after_iterations_add. apply after_iterations_grows.
Qed.

(** *** The first request *)

Lemma first_iteration self u :
  0 ≤ max_depth self → 0 < max_pages self →
  visited_urls self = ∅ → requests self = [] →
  loop_cond self [(u, 0)] = true
  ∧ requests (loop_body checks arun self [(u, 0)]).1 = [u]
  ∧ visited_urls (loop_body checks arun self [(u, 0)]).1
    = {[_normalize_url checks u]}.
Proof.
  intros Hd Hp Hv Hr. unfold loop_cond, loop_body, crawl_page.
  rewrite Hv, size_empty. simpl. change (Z.of_nat 0) with 0.
  rewrite (proj2 (Z.ltb_lt _ _) Hp), (proj2 (Z.ltb_ge _ _) Hd),
    (proj2 (Z.leb_gt _ _) Hp).
  split; [done|]. simpl.
  rewrite bool_decide_eq_false_2 by apply not_elem_of_empty.
  destruct (arun _ u) as [result|]; [destruct (success result && _)|];
    simpl; rewrite ?Hr, ?Hv, ?union_empty_r_L; done.
Qed.

(** X4. With [0 ≤ max_depth] and [0 < max_pages], a run ends and its
    first request is the base URL itself, whatever the site answers. *)
Theorem base_url_requested_first base depth_limit page_limit self :
  0 ≤ depth_limit → 0 < page_limit →
  init checks base depth_limit page_limit = Some self →
  (∃ fuel out, crawl_website checks arun fuel self = Some out)
  ∧ ∀ fuel final log ret,
      crawl_website checks arun fuel self = Some (final, log, ret) →
      head (requests final) = Some base.
Proof.
  intros Hd Hp Hinit. split; [apply crawl_website_terminates|].
  pose proof Hinit as (_ & Hb & Hmd & Hmp)%init_inv.
  assert (visited_urls self = ∅ ∧ requests self = []) as [Hv Hr].
  { unfold init in Hinit. destruct (urlparse checks base); [|done].
    by injection Hinit as <-. }
  destruct (first_iteration self base) as (Hc & Hfirst & _);
    [lia|lia|done|done|].
  intros fuel final log ret. unfold crawl_website. rewrite Hb.
  destruct (crawl_loop _ _ fuel self _) as [final'|] eqn:Hrun; [|done].
  simpl. intros [= <- <- <-].
  destruct fuel as [|fuel]; simpl in Hrun; rewrite Hc in Hrun; [done|].
  destruct (loop_body checks arun self [(base, 0)]) as [self' queue'].
  simpl in Hfirst. apply crawl_loop_after in Hrun as ->.
  destruct (after_iterations_grows fuel self' queue') as ([k ->] & _).
  by rewrite Hfirst.
Qed.

(** *** Runs without budget *)

(** X5. With [max_pages ≤ 0], or with [max_depth < 0], a run requests
    nothing: it returns no pages, the counts 0 and no visited URL. *)
Theorem crawl_without_budget base depth_limit page_limit self fuel :
  page_limit ≤ 0 ∨ depth_limit < 0 →
  init checks base depth_limit page_limit = Some self →
  crawl_website checks arun (S fuel) self
  = Some (self,
          {| log_pages_indexed := 0; log_urls_visited := 0;
             log_max_depth := 0 |},
          [ (str "data", RData []); (str "indexed_count", RInt 0);
            (str "visited_count", RInt 0); (str "urls_visited", RUrls []) ])
  ∧ requests self = [].
Proof.
  intros Hbudget Hinit.
  pose proof Hinit as (_ & Hb & Hmd & Hmp)%init_inv.
  assert (visited_urls self = ∅ ∧ requests self = []
          ∧ crawled_data self = [] ∧ indexed_count self = 0)
    as (Hv & Hr & Hdata & Hcount).
  { unfold init in Hinit. destruct (urlparse checks base); [|done].
    by injection Hinit as <-. }
  split; [|done].
  assert (crawl_loop checks arun (S fuel) self [(base_url self, 0)]
          = Some self) as Hrun.
  { simpl. unfold loop_cond. rewrite Hv, size_empty. simpl.
    change (Z.of_nat 0) with 0.
    destruct (0 <? max_pages self) eqn:Hlt; [|done].
    apply Z.ltb_lt in Hlt. unfold loop_body.
    assert ((max_depth self <? 0) = true) as -> by (apply Z.ltb_lt; lia).
    by destruct fuel. }
  unfold crawl_website. rewrite Hrun. simpl.
  unfold completion_log, returned_dict.
  by rewrite Hv, Hdata, Hcount, size_empty, elements_empty.
Qed.

(** *** A base page that cannot be fetched *)

Lemma failed_base_run base depth_limit page_limit self fuel :
  0 ≤ depth_limit → 0 < page_limit →
  init checks base depth_limit page_limit = Some self →
  fetch_failed (arun [] base) →
  ∃ final,
    crawl_website checks arun (S fuel) self
    = Some (final,
            {| log_pages_indexed := 0; log_urls_visited := 1;
               log_max_depth := 0 |},
            [ (str "data", RData []); (str "indexed_count", RInt 0);
              (str "visited_count", RInt 1);
              (str "urls_visited", RUrls [_normalize_url checks base]) ])
    ∧ requests final = [base]
    ∧ crawled_data final = [].
Proof.
  intros Hd Hp Hinit Hfail.
  pose proof Hinit as (_ & Hb & Hmd & Hmp)%init_inv.
  assert (visited_urls self = ∅ ∧ requests self = []
          ∧ crawled_data self = [] ∧ indexed_count self = 0)
    as (Hv & Hr & Hdata & Hcount).
  { unfold init in Hinit. destruct (urlparse checks base); [|done].
    by injection Hinit as <-. }
  destruct (first_iteration self base) as (Hc & Hfirst & Hvis);
    [lia|lia|done|done|].
  pose proof (crawl_page_outcome checks arun self base 0) as Hout.
  assert (loop_body checks arun self [(base, 0)]
          = ((crawl_page checks arun self base 0).1, [])
          ∧ crawled_data (crawl_page checks arun self base 0).1 = []
          ∧ indexed_count (crawl_page checks arun self base 0).1 = 0)
    as (Hbody & Hdata' & Hcount').
  { unfold loop_body.
    assert ((max_depth self <? 0) = false) as -> by (apply Z.ltb_ge; lia).
    destruct (crawl_page checks arun self base 0) as [self' found].
    simpl in *. rewrite enqueue_links.
    destruct Hout as [|self' found _ _ _ _ _ _ _ _ Hpage].
    - by destruct (_ <? _).
    - destruct Hpage as [(-> & -> & -> & _)|(r & Hr' & Hs & Hm & _)].
      + by destruct (_ <? _).
      + rewrite Hr in Hr'. rewrite Hr' in Hfail. simpl in Hfail.
        destruct Hfail; congruence. }
  rewrite Hbody in Hfirst, Hvis. simpl in Hfirst, Hvis.
  exists (crawl_page checks arun self base 0).1. split; [|done].
  unfold crawl_website. rewrite Hb. simpl. rewrite Hc, Hbody.
  assert (crawl_loop checks arun fuel
            (crawl_page checks arun self base 0).1 [] = Some
            (crawl_page checks arun self base 0).1) as ->.
  { by destruct fuel. }
  simpl. unfold completion_log, returned_dict.
  by rewrite Hvis, Hdata', Hcount', size_singleton, elements_singleton.
Qed.

(** X6. When the fetch of the base URL fails, or brings no text, the
    run ends after this one request: it returns no pages and
    [indexed_count = 0], but [visited_count = 1] and the normalized base
    URL as the one visited URL. *)
Theorem failed_base_page base depth_limit page_limit self fuel :
  0 ≤ depth_limit → 0 < page_limit →
  init checks base depth_limit page_limit = Some self →
  fetch_failed (arun [] base) →
  ∃ final,
    crawl_website checks arun (S fuel) self
    = Some (final,
            {| log_pages_indexed := 0; log_urls_visited := 1;
               log_max_depth := 0 |},
            [ (str "data", RData []); (str "indexed_count", RInt 0);
              (str "visited_count", RInt 1);
              (str "urls_visited", RUrls [_normalize_url checks base]) ])
    ∧ requests final = [base].
Proof.
  intros Hd Hp Hinit Hfail.
  destruct (failed_base_run base depth_limit page_limit self fuel)
    as (final & ? & ? & _); by eauto.
Qed.

(** *** The counts *)

Lemma max_or_zero_le xs bound :
  0 ≤ bound → Forall (λ x, x ≤ bound) xs → max_or_zero xs ≤ bound.
Proof.
  intros Hb. destruct 1 as [|x xs Hx Hxs]; simpl; [done|].
  revert x Hx. induction Hxs as [|y xs Hy _ IH]; intros x Hx; simpl;
    [done|].
  apply IH. lia.
Qed.

(** X7. With [0 ≤ max_depth] and [0 ≤ max_pages], the run requests at
    most [max_pages] URLs, failed fetches included: of the figures
    logged and returned, [indexed_count ≤ visited_count ≤ max_pages],
    and the maximum depth logged is at most [max_depth]. *)
Theorem counts_within_budget base depth_limit page_limit self
    fuel final log ret :
  0 ≤ depth_limit → 0 ≤ page_limit →
  init checks base depth_limit page_limit = Some self →
  crawl_website checks arun fuel self = Some (final, log, ret) →
  0 ≤ log_pages_indexed log ≤ log_urls_visited log
  ∧ log_urls_visited log ≤ page_limit
  ∧ log_urls_visited log = Z.of_nat (length (requests final))
  ∧ log_max_depth log ≤ depth_limit
  ∧ getitem ret (str "indexed_count") = Some (RInt (log_pages_indexed log))
  ∧ getitem ret (str "visited_count") = Some (RInt (log_urls_visited log)).
Proof.
  intros Hd Hp (Hinv & _ & Hmd & Hmp)%init_inv. unfold crawl_website.
  destruct (crawl_loop _ _ fuel self _) as [final'|] eqn:Hrun; [|done].
  simpl. intros [= <- <- <-].
  destruct (crawl_loop_inv _ _ _ _ _ _ Hinv Hrun) as (Hinv' & Hmd' & Hmp').
  pose proof (crawl_inv_size _ _ Hinv') as Hsize.
  destruct Hinv' as [_ _ Hb Hpages Hcount Hdepth]. simpl.
  rewrite Hcount, Hsize. repeat split; try done; try lia.
  - destruct Hb as [->|Hb]; simpl; lia.
  - apply max_or_zero_le; [done|]. apply Forall_fmap.
    eapply Forall_impl; [exact Hdepth|]. intros p. simpl. lia.
Qed.

(** *** [index_website] *)

(** X8. [index_website] raises the [ValueError] of [urlparse] when the
    URL does not parse, which [_normalize_url] and [_is_same_domain]
    catch but the constructor does not; for every other URL, and every
    site, it returns. *)
Theorem index_website_outcome url depth_limit page_limit :
  match urlparse checks url with
  | None =>
      ∀ fuel,
        index_website checks arun fuel url depth_limit page_limit
        = Some (inl ())
  | Some _ =>
      ∃ fuel ret,
        index_website checks arun fuel url depth_limit page_limit
        = Some (inr ret)
  end.
Proof.
  unfold index_website, init.
  destruct (urlparse checks url) as [parsed|]; [|done]. simpl.
  set (c := {| base_url := url; max_depth := depth_limit;
               max_pages := page_limit; visited_urls := ∅;
               crawled_data := []; base_domain := netloc parsed;
               indexed_count := 0; requests := [] |}).
  destruct (crawl_website_terminates checks arun c)
    as (fuel & [[final log] ret] & Hrun).
  exists fuel, ret. by rewrite Hrun.
Qed.

End CrawlerMore.

Lemma crawl_stays_on_domain_witness :
  init lenient Scenario.A 2 10 = Some Scenario.crawler
  ∧ ∀ fuel final log ret,
      crawl_website lenient Scenario.site fuel Scenario.crawler
      = Some (final, log, ret) →
      Forall (λ u, ∃ parsed,
                urlparse lenient u = Some parsed
                ∧ netloc parsed = base_domain Scenario.crawler)
        (requests final).
Proof.
  split; [reflexivity|].
  apply (crawl_stays_on_domain lenient Scenario.site Scenario.A 2 10
           Scenario.crawler); reflexivity.
Defined.

Lemma frontier_depth_bounded_witness :
  0 ≤ 2
  ∧ init lenient Scenario.A 2 10 = Some Scenario.crawler
  ∧ Forall (λ e, 0 ≤ e.2 ≤ 2 + 1)
      (after_iterations lenient Scenario.site 1 Scenario.crawler
         [(Scenario.A, 0)]).2.
Proof.
  split; [lia|]. split; [reflexivity|].
  apply (frontier_depth_bounded lenient Scenario.site Scenario.A 2 10
           Scenario.crawler 1); [lia|reflexivity].
Defined.

Lemma base_url_requested_first_witness :
  0 ≤ 2 ∧ 0 < 10
  ∧ init lenient Scenario.A 2 10 = Some Scenario.crawler
  ∧ ∃ fuel out,
      crawl_website lenient Scenario.site fuel Scenario.crawler = Some out.
Proof.
  split; [lia|]. split; [lia|]. split; [reflexivity|].
  apply (base_url_requested_first lenient Scenario.site Scenario.A 2 10
           Scenario.crawler); [lia|lia|reflexivity].
Defined.

Lemma crawl_without_budget_witness :
  (0 ≤ 0 ∨ 2 < 0)
  ∧ init lenient Scenario.A 2 0 = Some Examples.no_pages
  ∧ requests Examples.no_pages = [].
Proof.
  split; [left; lia|]. split; [reflexivity|].
  apply (crawl_without_budget lenient Scenario.site Scenario.A 2 0
           Examples.no_pages 0); [left; lia|reflexivity].
Defined.

Lemma failed_base_page_witness :
  0 ≤ 2 ∧ 0 < 10
  ∧ init lenient Scenario.A 2 10 = Some Scenario.crawler
  ∧ fetch_failed (Scenario.down [] Scenario.A)
  ∧ ∃ final,
      crawl_website lenient Scenario.down 1 Scenario.crawler
      = Some (final,
              {| log_pages_indexed := 0; log_urls_visited := 1;
                 log_max_depth := 0 |},
              [ (str "data", RData []); (str "indexed_count", RInt 0);
                (str "visited_count", RInt 1);
                (str "urls_visited",
                 RUrls [_normalize_url lenient Scenario.A]) ])
      ∧ requests final = [Scenario.A].
Proof.
  split; [lia|]. split; [lia|]. split; [reflexivity|]. split; [exact I|].
  apply (failed_base_page lenient Scenario.down Scenario.A 2 10
           Scenario.crawler 0); [lia|lia|reflexivity|exact I].
Defined.

Lemma counts_within_budget_witness :
  ∃ final log ret,
    crawl_website lenient Scenario.down 1 Scenario.crawler
    = Some (final, log, ret)
    ∧ log_urls_visited log ≤ 10.
Proof.
  eexists _, _, _. split; [vm_compute; reflexivity|].
  eapply (counts_within_budget lenient Scenario.down Scenario.A 2 10
            Scenario.crawler 1); [lia|lia|reflexivity|].
  vm_compute. reflexivity.
Defined.

(** ** More on URLs *)
Section UrlMore.
Variable checks : HostChecks.

Lemma same_domain_by_location self a b :
  location <$> urlsplit checks a [] = location <$> urlsplit checks b [] →
  _is_same_domain checks self a = _is_same_domain checks self b.
Proof.
  unfold _is_same_domain, urlparse, urlparse_with, location.
  destruct (urlsplit checks a []) as [ra|], (urlsplit checks b [])
    as [rb|]; simpl; try done.
  intros [= _ Hn _].
  destruct (_ && _), (_ && _);
    repeat (destruct (_splitparams _)); simpl; by rewrite Hn.
Qed.

(** X9. The domain test reads the network location only: text after a
    [#], and text after a [?] where there was none, does not change its
    answer. *)
Theorem same_domain_ignores_fragment_and_query self u :
  "#"%char ∉ u →
  (∀ fragment,
     _is_same_domain checks self (u ++ "#"%char :: fragment)
     = _is_same_domain checks self u)
  ∧ ("?"%char ∉ u →
     ∀ query_and_fragment,
       _is_same_domain checks self (u ++ "?"%char :: query_and_fragment)
       = _is_same_domain checks self u).
Proof.
  intros Hfrag. split.
  - intros f. apply same_domain_by_location.
    apply urlsplit_before_mark; [by right|done|done].
  - intros Hquery t. apply same_domain_by_location.
    apply urlsplit_before_mark; [by left|done|done].
Qed.

Lemma normalize_rebuilt s n p :
  clean_scheme s → clean_netloc checks n → clean_path p →
  ";"%char ∉ p →
  _normalize_url checks (s ++ str "://" ++ n ++ p)
  = s ++ str "://" ++ n ++ strip_slash p.
Proof.
  intros Hs Hn Hp Hsemi.
  rewrite (normalize_shape checks _
             {| scheme := s; netloc := n; path := p; params := [];
                query := []; fragment := [] |}); [done|].
  unfold urlparse, urlparse_with. rewrite urlsplit_rebuilt by done. simpl.
  apply contains_false in Hsemi as ->. by rewrite andb_false_r.
Qed.

Lemma clean_path_slash p :
  clean_path p → clean_path (p ++ str "/").
Proof.
  intros [Hc Hs Ha]. split.
  - apply Forall_app. split; [done|]. by repeat constructor.
  - apply Forall_app. split; [done|]. by repeat constructor.
  - by destruct p.
Qed.

(** X10. One trailing slash does not tell two pages apart, except at the
    root.  For the scheme and network location of a parsed URL, and its
    path if it is not empty, has no [;] and does not end in [/]: the URL
    with a [/] after the path and the URL without it normalize to the
    same string, the one without; but with the empty path the URLs with
    and without [/] normalize to themselves, two different strings. *)
Theorem trailing_slash_dropped u r :
  urlparse checks u = Some r →
  scheme r ≠ [] → netloc r ≠ [] → ";"%char ∉ path r →
  let site := scheme r ++ str "://" ++ netloc r in
  (path r ≠ [] → last (path r) ≠ Some "/"%char →
   _normalize_url checks (site ++ path r ++ str "/") = site ++ path r
   ∧ _normalize_url checks (site ++ path r) = site ++ path r)
  ∧ _normalize_url checks (site ++ str "/") = site ++ str "/"
  ∧ _normalize_url checks site = site.
Proof.
  intros Hparse Hs Hn Hsemi site. subst site.
  destruct (urlparse_parts checks u r Hparse Hs Hn) as (Hcs & Hcn & Hcp).
  rewrite <- !app_assoc. change (str "/") with ["/"%char].
  assert (clean_path []) as Hnil by by split.
  assert (clean_path ["/"%char]) as Hroot
    by (split; [by repeat constructor|by repeat constructor|done]).
  split; [|split].
  - intros Hne Hlast. split.
    + rewrite normalize_rebuilt;
        [|done|done|by apply (clean_path_slash (path r))|].
      * unfold strip_slash, endswith, drop_last.
        rewrite last_snoc, bool_decide_eq_true_2 by done.
        rewrite length_app. simpl.
        destruct (path r) as [|c p] eqn:Hp; [done|].
        rewrite (proj2 (Z.ltb_lt _ _)) by (simpl; lia). simpl andb. cbv iota.
        by rewrite removelast_last.
      * rewrite elem_of_app. intros [?|Hin]; [done|].
        by apply list_elem_of_singleton in Hin.
    + rewrite normalize_rebuilt by done.
      unfold strip_slash, endswith.
      by rewrite bool_decide_eq_false_2.
  - by rewrite normalize_rebuilt
      by (done || (intros Hin; by apply list_elem_of_singleton in Hin)).
  - rewrite <- (app_nil_r (netloc r)) at 1.
    rewrite normalize_rebuilt by (done || apply not_elem_of_nil).
    by rewrite app_nil_r.
Qed.

(** X11. The normalized form of a URL with a scheme and a network
    location is itself a URL that parses, with the same scheme and
    network location, the path without its trailing slash, and neither
    query nor fragment. *)
Theorem normalized_url_parses u r :
  urlparse checks u = Some r →
  scheme r ≠ [] → netloc r ≠ [] →
  urlsplit checks (_normalize_url checks u) []
  = Some {| s_scheme := scheme r; s_netloc := netloc r;
            s_path := strip_slash (path r); s_query := [];
            s_fragment := [] |}.
Proof.
  intros Hparse Hs Hn.
  destruct (urlparse_parts checks u r Hparse Hs Hn) as (Hcs & Hcn & Hcp).
  rewrite (normalize_shape checks u r Hparse).
  apply urlsplit_rebuilt; [done|done|].
  destruct (strip_slash_prefix (path r)) as [i ->].
  by apply clean_path_take.
Qed.

End UrlMore.

Lemma same_domain_ignores_fragment_and_query_witness :
  _is_same_domain lenient Scenario.crawler
    (str "https://site.test/b" ++ "#"%char :: str "top")
  = _is_same_domain lenient Scenario.crawler (str "https://site.test/b").
Proof.
  refine (proj1 (same_domain_ignores_fragment_and_query lenient
                   Scenario.crawler (str "https://site.test/b") _)
            (str "top")).
  apply (bool_decide_unpack _). vm_compute. exact I.
Defined.

Lemma trailing_slash_dropped_witness :
  urlparse lenient (str "https://a.com/docs") = Some Examples.docs
  ∧ _normalize_url lenient (str "https://a.com" ++ str "/docs" ++ str "/")
    = str "https://a.com" ++ str "/docs".
Proof.
  split; [reflexivity|].
  apply (trailing_slash_dropped lenient (str "https://a.com/docs")
           Examples.docs); try done.
  apply (bool_decide_unpack _). vm_compute. exact I.
Defined.

Lemma normalized_url_parses_witness :
  urlparse lenient (str "https://a.com/docs") = Some Examples.docs
  ∧ urlsplit lenient (_normalize_url lenient (str "https://a.com/docs")) []
    = Some {| s_scheme := str "https"; s_netloc := str "a.com";
              s_path := strip_slash (str "/docs"); s_query := [];
              s_fragment := [] |}.
Proof.
  split; [reflexivity|].
  apply (normalized_url_parses lenient (str "https://a.com/docs")
           Examples.docs); done.
Defined.

(** ** More on link extraction *)

Lemma recognized_hrefs (hrefs : list pystr) :
  omap recognized ((λ l, PDict [(str "href", PStr l)]) <$> hrefs)
  = PStr <$> hrefs.
Proof. induction hrefs as [|l hrefs IH]; csimpl; [done|]. by rewrite IH. Qed.

(** X12. On the link data as [crawl4ai] delivers it, a mapping with the
    lists [internal] and [external] of records with an [href], extraction
    gives the [href]s of both lists, the internal ones first, also when
    the mapping has [external] before [internal]; nothing is dropped and
    no duplicate is removed. *)
Theorem extract_internal_then_external ok u text meta
    (internal external : list pystr) :
  let record := λ l, PDict [(str "href", PStr l)] in
  _extract_links_from_result
    {| success := ok; url := u; markdown := text; metadata := meta;
       links := PDict [ (str "internal", PList (record <$> internal));
                        (str "external", PList (record <$> external)) ] |}
  = PStr <$> (internal ++ external)
  ∧ _extract_links_from_result
      {| success := ok; url := u; markdown := text; metadata := meta;
         links := PDict [ (str "external", PList (record <$> external));
                          (str "internal", PList (record <$> internal)) ] |}
    = PStr <$> (internal ++ external).
Proof.
  intros record. unfold _extract_links_from_result, extract_links_outcome.
  cbn [links truthy length negb bool_decide decide_rel].
  assert (∀ l, recognized_entries (PList (record <$> l)) = PStr <$> l)
    as Hentries by (intros l; apply recognized_hrefs).
  split.
  - unfold extract_try_body, mbind, extract_bind, Extract.bind,
      Extract.subscript.
    assert (has_key [(str "internal", PList (record <$> internal));
                     (str "external", PList (record <$> external))]
              (str "internal") = true) as -> by done.
    cbn [getitem]. rewrite decide_True by done.
    rewrite for_each_collect, for_each_categories.
    rewrite !fmap_cons, fmap_nil.
    rewrite (bool_decide_eq_true_2 (str "internal" = str "internal"))
      by done.
    rewrite (bool_decide_eq_false_2 (str "external" = str "internal"))
      by done.
    rewrite Hentries. unfold record at 1. rewrite recognized_hrefs.
    cbn [mjoin list_join app fst]. by rewrite app_nil_r, fmap_app.
  - unfold extract_try_body, mbind, extract_bind, Extract.bind,
      Extract.subscript.
    assert (has_key [(str "external", PList (record <$> external));
                     (str "internal", PList (record <$> internal))]
              (str "internal") = true) as -> by done.
    cbn [getitem]. rewrite decide_False by done.
    rewrite decide_True by done.
    rewrite for_each_collect, for_each_categories.
    rewrite !fmap_cons, fmap_nil.
    rewrite (bool_decide_eq_true_2 (str "internal" = str "internal"))
      by done.
    rewrite (bool_decide_eq_false_2 (str "external" = str "internal"))
      by done.
    rewrite Hentries. unfold record at 1. rewrite recognized_hrefs.
    cbn [mjoin list_join app fst]. by rewrite app_nil_r, fmap_app.
Qed.

(** ** More on the vector store *)
Section VectorStoreMore.
Variables Index LibError : Type.
Variable build_index : list PageData → LibError + Index.

(** X14. Sessions do not touch each other: for two session ids that
    name different entries of the storage directory, creating the vector
    store of the one, or deleting it, leaves the directory of the other
    as it is, and with it what [load_vector_store] finds there. *)
Theorem sessions_are_separate storage self crawled_data
    (other : VectorStore.VectorStoreManager Index) :
  plain_id (VectorStore.session_id self) →
  plain_id (VectorStore.session_id other) →
  VectorStore.session_id other ≠ VectorStore.session_id self →
  let created :=
    (VectorStore.create_vector_store build_index storage self
       crawled_data).1.1 in
  let deleted := VectorStore.delete_session storage self in
  created !! VectorStore.session_id other
  = storage !! VectorStore.session_id other
  ∧ deleted !! VectorStore.session_id other
    = storage !! VectorStore.session_id other
  ∧ VectorStore.load_vector_store created other
    = VectorStore.load_vector_store storage other
  ∧ VectorStore.load_vector_store deleted other
    = VectorStore.load_vector_store storage other.
Proof.
  intros _ _ Hne created deleted.
  assert (created !! VectorStore.session_id other
          = storage !! VectorStore.session_id other) as Hc.
  { subst created. unfold VectorStore.create_vector_store.
    destruct (storage !! VectorStore.session_id self),
      (build_index crawled_data); simpl;
      by rewrite ?lookup_insert_ne by done. }
  assert (deleted !! VectorStore.session_id other
          = storage !! VectorStore.session_id other) as Hd.
  { subst deleted. unfold VectorStore.delete_session.
    destruct (storage !! VectorStore.session_id self); [|done].
    by rewrite lookup_delete_ne. }
  unfold VectorStore.load_vector_store. by rewrite Hc, Hd.
Qed.

(** X16. When the index cannot be built, [create_vector_store] of a
    session whose id names an entry of the storage directory raises the
    library's error with no index attached or written: the session's
    directory exists afterwards, made if need be, and holds the index
    file it held before, none for a new session. *)
Theorem failed_build_saves_nothing storage
    (self : VectorStore.VectorStoreManager Index) crawled_data e :
  plain_id (VectorStore.session_id self) →
  build_index crawled_data = inl e →
  let outcome :=
    VectorStore.create_vector_store build_index storage self crawled_data in
  let sid := VectorStore.session_id self in
  outcome.2 = Some (VectorStore.Library e)
  ∧ outcome.1.2 = self
  ∧ VectorStore.faiss_index <$> outcome.1.1 !! sid
    = Some (storage !! sid ≫= VectorStore.faiss_index)
  ∧ (storage !! sid = None →
     VectorStore.load_vector_store outcome.1.1 (VectorStore.new sid)
     = (VectorStore.new sid, false)).
Proof.
  intros _ Hbuild. unfold VectorStore.create_vector_store. rewrite Hbuild.
  simpl. destruct (storage !! VectorStore.session_id self) as [dir|] eqn:Hs;
    simpl.
  - rewrite Hs. by repeat split.
  - rewrite lookup_insert_eq. repeat split.
    intros _. unfold VectorStore.load_vector_store. simpl.
    by rewrite lookup_insert_eq.
Qed.

End VectorStoreMore.

Lemma plain_s1 : plain_id Sessions.s1.
Proof.
  repeat split; try done; try (simpl; lia);
    apply (bool_decide_unpack _); vm_compute; exact I.
Defined.

Lemma plain_s2 : plain_id (str "s2").
Proof.
  repeat split; try done; try (simpl; lia);
    apply (bool_decide_unpack _); vm_compute; exact I.
Defined.

Lemma sessions_are_separate_witness :
  (plain_id Sessions.s1 ∧ plain_id (str "s2"))
  ∧ VectorStore.session_id (VectorStore.new (Index:=list PageData)
                              (str "s2"))
    ≠ VectorStore.session_id (VectorStore.new (Index:=list PageData)
                                Sessions.s1)
  ∧ VectorStore.delete_session
      (ChatService.storage Sessions.crawled) (VectorStore.new Sessions.s1)
    !! str "s2"
    = ChatService.storage Sessions.crawled !! str "s2".
Proof.
  split; [exact (conj plain_s1 plain_s2)|]. split; [done|].
  apply (sessions_are_separate (list PageData) unit Sessions.build
           (ChatService.storage Sessions.crawled)
           (VectorStore.new Sessions.s1) [] (VectorStore.new (str "s2"))
           plain_s1 plain_s2).
  done.
Defined.

Lemma failed_build_saves_nothing_witness :
  plain_id Sessions.s1
  ∧ (λ _ : list PageData, @inl unit (list PageData) ()) [Sessions.one_page]
    = inl ()
  ∧ (VectorStore.create_vector_store (λ _, @inl unit (list PageData) ())
       ∅ (VectorStore.new Sessions.s1) [Sessions.one_page]).2
    = Some (VectorStore.Library ()).
Proof.
  split; [exact plain_s1|]. split; [reflexivity|].
  apply (failed_build_saves_nothing (list PageData) unit (λ _, inl ())
           ∅ (VectorStore.new Sessions.s1) [Sessions.one_page] ()
           plain_s1).
  reflexivity.
Defined.

(** ** More on the chat manager *)
Section ChatServiceMore.
Context {Index : Type}.

Lemma get_or_create_registered (app : ChatService.App Index) sid :
  ChatService.sessions (ChatService.get_or_create_session app sid).1 !! sid
  = Some (ChatService.get_or_create_session app sid).2.
Proof.
  unfold ChatService.get_or_create_session.
  destruct (ChatService.sessions app !! sid) eqn:Hs; simpl; [done|].
  apply lookup_insert_eq.
Qed.

Lemma get_or_create_well_keyed (app : ChatService.App Index) sid :
  well_keyed app →
  well_keyed (ChatService.get_or_create_session app sid).1.
Proof.
  intros Hkeys. unfold ChatService.get_or_create_session.
  destruct (ChatService.sessions app !! sid) eqn:Hs; simpl; [done|].
  intros sid' session'. simpl. destruct (decide (sid' = sid)) as [->|Hne].
  - rewrite lookup_insert_eq. by intros [= <-].
  - rewrite lookup_insert_ne by done. apply Hkeys.
Qed.

(** X17. [get_or_create_session] hands out one session per id: the
    session it returns is the one filed under the id afterwards, a second
    call returns the same session and changes nothing, the sessions of
    other ids and the storage directory are untouched, and a manager
    whose sessions are filed under their own ids stays so. *)
Theorem one_session_per_id (app : ChatService.App Index) sid :
  let app' := (ChatService.get_or_create_session app sid).1 in
  let session := (ChatService.get_or_create_session app sid).2 in
  ChatService.sessions app' !! sid = Some session
  ∧ ChatService.get_or_create_session app' sid = (app', session)
  ∧ (∀ other, other ≠ sid →
       ChatService.sessions app' !! other
       = ChatService.sessions app !! other)
  ∧ ChatService.storage app' = ChatService.storage app
  ∧ (well_keyed app → well_keyed app').
Proof.
  intros app' session.
  pose proof (get_or_create_registered app sid) as Hreg.
  fold app' session in Hreg.
  split; [done|]. split.
  { unfold ChatService.get_or_create_session at 1. by rewrite Hreg. }
  split; [|split].
  - intros other Hne. subst app'.
    unfold ChatService.get_or_create_session.
    destruct (ChatService.sessions app !! sid); simpl; [done|].
    by rewrite lookup_insert_ne.
  - subst app'. unfold ChatService.get_or_create_session.
    by destruct (ChatService.sessions app !! sid).
  - apply get_or_create_well_keyed.
Qed.

(** X18. Deleting a session the manager has handed out concerns this
    session only.  In a manager whose sessions are filed under their own
    ids, after [get_or_create_session] and then [delete_session] of an
    id that names an entry of the storage directory, the manager does
    not hold the id, the sessions of all other ids are as before, and so
    are the directories of all other such ids. *)
Theorem handed_out_session_unregistered (app : ChatService.App Index) sid :
  well_keyed app → plain_id sid →
  let app' :=
    ChatService.delete_session
      (ChatService.get_or_create_session app sid).1 sid in
  ChatService.sessions app' !! sid = None
  ∧ (∀ other, other ≠ sid →
       ChatService.sessions app' !! other
       = ChatService.sessions app !! other
       ∧ (plain_id other →
          ChatService.storage app' !! other
          = ChatService.storage app !! other)).
Proof.
  intros Hkeys _ app'.
  pose proof (get_or_create_registered app sid) as Hreg.
  pose proof (get_or_create_well_keyed app sid Hkeys _ _ Hreg) as Hid.
  assert (ChatService.storage (ChatService.get_or_create_session app sid).1
          = ChatService.storage app) as Hstorage.
  { unfold ChatService.get_or_create_session.
    by destruct (ChatService.sessions app !! sid). }
  assert (∀ other, other ≠ sid →
            ChatService.sessions
              (ChatService.get_or_create_session app sid).1 !! other
            = ChatService.sessions app !! other) as Hothers.
  { intros other Hne. unfold ChatService.get_or_create_session.
    destruct (ChatService.sessions app !! sid); simpl; [done|].
    by rewrite lookup_insert_ne. }
  subst app'. unfold ChatService.delete_session. rewrite Hreg. simpl.
  split; [apply lookup_delete_eq|].
  intros other Hne. split.
  - rewrite lookup_delete_ne by done. by apply Hothers.
  - intros _. unfold VectorStore.delete_session. rewrite Hid, Hstorage.
    destruct (ChatService.storage app !! sid); [|done].
    by rewrite lookup_delete_ne.
Qed.

End ChatServiceMore.

Lemma handed_out_session_unregistered_witness :
  (well_keyed Sessions.crawled ∧ plain_id Sessions.s1)
  ∧ ChatService.sessions
      (ChatService.delete_session
         (ChatService.get_or_create_session Sessions.crawled
            Sessions.s1).1 Sessions.s1) !! Sessions.s1 = None.
Proof.
  assert (well_keyed Sessions.crawled) as Hkeys.
  { intros sid session. simpl. by rewrite lookup_empty. }
  split; [exact (conj Hkeys plain_s1)|].
  exact (proj1 (handed_out_session_unregistered Sessions.crawled
                  Sessions.s1 Hkeys plain_s1)).
Defined.

(** ** The endpoint [POST /crawl] *)
Section MainMore.
Variable checks : HostChecks.
Variable arun : list pystr → pystr → option CrawlResult.
Variables Index LibError : Type.
Variable build_index : list PageData → LibError + Index.
Variable api_key : pystr.


(** The endpoint after a crawl that ended. *)
Lemma crawl_endpoint_after_run fuel session_id request app parsed
    depth_limit page_limit crawler final log ret :
  api_key ≠ [] →
  urlparse checks (Main.req_url request) = Some parsed →
  Main.req_max_pages request = Some page_limit →
  Main.req_max_depth request = Some depth_limit →
  init checks (Main.req_url request) depth_limit page_limit = Some crawler →
  crawl_website checks arun fuel crawler = Some (final, log, ret) →
  Main.crawl_website checks arun build_index api_key fuel session_id
    request app
  = if bool_decide (crawled_data final = []) then
      Some (app, Main.HTTPException 400)
    else
      let created :=
        VectorStore.create_vector_store build_index
          (ChatService.storage app) (VectorStore.new session_id)
          (crawled_data final) in
      let app' :=
        {| ChatService.sessions := ChatService.sessions app;
           ChatService.storage := created.1.1 |} in
      match created.2 with
      | Some _ => Some (app', Main.HTTPException 500)
      | None =>
          Some (app',
                Main.Answer
                  {| Main.resp_session_id := session_id;
                     Main.resp_url := Main.req_url request;
                     Main.pages_crawled := indexed_count final;
                     Main.urls_scraped := elements (visited_urls final) |})
      end.
Proof.
  intros Hkey Hp Hpages Hdepth Hinit Hrun. unfold Main.crawl_website.
  rewrite bool_decide_eq_false_2 by done.
  rewrite Hp, Hpages, Hdepth, Hinit. simpl.
  unfold crawler_crawl_website. rewrite Hrun. simpl.
  case_bool_decide; [done|].
  by destruct (VectorStore.create_vector_store _ _ _ _) as [[? ?] [?|]].
Qed.


(** X20. When the base page cannot be fetched, or brings no text, the
    request is answered with status 400 and neither the chat manager nor
    the storage directory has changed. *)
Theorem crawl_endpoint_failed_base fuel session_id request
    (app : ChatService.App Index) parsed depth_limit page_limit :
  api_key ≠ [] →
  urlparse checks (Main.req_url request) = Some parsed →
  Main.req_max_depth request = Some depth_limit →
  Main.req_max_pages request = Some page_limit →
  0 ≤ depth_limit → 0 < page_limit →
  fetch_failed (arun [] (Main.req_url request)) →
  Main.crawl_website checks arun build_index api_key (S fuel) session_id
    request app
  = Some (app, Main.HTTPException 400).
Proof.
  intros Hkey Hp Hdepth Hpages Hd Hpg Hfail.
  assert (∃ crawler, init checks (Main.req_url request) depth_limit
                       page_limit = Some crawler) as [crawler Hinit].
  { unfold init. rewrite Hp. by eexists. }
  destruct (failed_base_run checks arun _ _ _ _ fuel Hd Hpg Hinit Hfail)
    as (final & Hrun & _ & Hdata).
  rewrite (crawl_endpoint_after_run _ session_id request app parsed
             depth_limit page_limit crawler _ _ _ Hkey Hp Hpages Hdepth
             Hinit Hrun).
  by rewrite bool_decide_eq_true_2.
Qed.

(** X21. A request with [max_pages ≤ 0] and a URL that parses is answered
    with status 400, whatever its [max_depth], without a fetch and
    without a change to the chat manager or the storage directory. *)
Theorem crawl_endpoint_without_budget fuel session_id request
    (app : ChatService.App Index) parsed page_limit :
  api_key ≠ [] →
  urlparse checks (Main.req_url request) = Some parsed →
  Main.req_max_pages request = Some page_limit →
  page_limit ≤ 0 →
  Main.crawl_website checks arun build_index api_key fuel session_id
    request app
  = Some (app, Main.HTTPException 400).
Proof.
  intros Hkey Hp Hpages Hle.
  destruct (Main.req_max_depth request) as [depth_limit|] eqn:Hdepth.
  - assert (∃ crawler, init checks (Main.req_url request) depth_limit
                         page_limit = Some crawler) as [crawler Hinit].
    { unfold init. rewrite Hp. by eexists. }
    assert (crawl_loop checks arun fuel crawler [(base_url crawler, 0)]
            = Some crawler ∧ crawled_data crawler = []) as [Hloop Hdata].
    { unfold init in Hinit. rewrite Hp in Hinit. injection Hinit as <-.
      split; [|done].
      assert (loop_cond
                {| base_url := Main.req_url request;
                   max_depth := depth_limit; max_pages := page_limit;
                   visited_urls := ∅; crawled_data := [];
                   base_domain := netloc parsed; indexed_count := 0;
                   requests := [] |}
                [(Main.req_url request, 0)] = false) as Hcond.
      { unfold loop_cond. apply andb_false_intro2. cbn [visited_urls max_pages].
        rewrite size_empty. apply Z.ltb_ge. lia. }
      destruct fuel; simpl; by rewrite Hcond. }
    rewrite (crawl_endpoint_after_run fuel session_id request app parsed
               depth_limit page_limit crawler crawler
               (completion_log crawler) (returned_dict crawler)); try done.
    + by rewrite bool_decide_eq_true_2.
    + unfold crawl_website. by rewrite Hloop.
  - unfold Main.crawl_website.
    rewrite bool_decide_eq_false_2, Hp, Hpages, Hdepth by done.
    by assert ((0 <? page_limit) = false) as -> by (apply Z.ltb_ge; lia).
Qed.

End MainMore.

Lemma crawl_endpoint_failed_base_witness :
  Main.crawl_website lenient Scenario.down Sessions.build (str "key") 1
    Sessions.s1 (Examples.request (Some 3) (Some 100)) Sessions.started
  = Some (Sessions.started, Main.HTTPException 400).
Proof.
  apply (crawl_endpoint_failed_base lenient Scenario.down (list PageData)
           unit Sessions.build (str "key") 0 Sessions.s1
           (Examples.request (Some 3) (Some 100)) Sessions.started
           Examples.home 3 100).
  - done.
  - reflexivity.
  - reflexivity.
  - reflexivity.
  - lia.
  - lia.
  - exact I.
Defined.

Lemma crawl_endpoint_without_budget_witness :
  Main.crawl_website lenient Scenario.site Sessions.build (str "key") 5
    Sessions.s1 (Examples.request None (Some 0)) Sessions.started
  = Some (Sessions.started, Main.HTTPException 400).
Proof.
  apply (crawl_endpoint_without_budget lenient Scenario.site (list PageData)
           unit Sessions.build (str "key") 5 Sessions.s1
           (Examples.request None (Some 0)) Sessions.started
           Examples.home 0).
  - done.
  - reflexivity.
  - reflexivity.
  - lia.
Defined.

(** ** Breadth-first order *)
Section BreadthFirst.
Variable checks : HostChecks.
Variable arun : list pystr → pystr → option CrawlResult.

Lemma constant_sorted (c : Z) (l : list Z) :
  Forall (λ e, e = c) l → StronglySorted Z.le l.
Proof.
  induction 1 as [|e l -> Hl IH]; constructor; [done|].
  eapply Forall_impl; [exact Hl|]. intros ? ->. lia.
Qed.

(** One iteration stores nothing, or one page at the depth of the head
    of the queue. *)
Lemma loop_body_pages self u d rest :
  let self' := (loop_body checks arun self ((u, d) :: rest)).1 in
  crawled_data self' = crawled_data self
  ∨ ∃ page, depth page = d ∧ crawled_data self' = crawled_data self ++ [page].
Proof.
  unfold loop_body. destruct (max_depth self <? d); [by left|].
  pose proof (crawl_page_outcome checks arun self u d) as Hout.
  destruct (crawl_page checks arun self u d) as [self' found]. simpl in *.
  destruct Hout as [|self' found _ _ _ _ _ _ _ _ Hdata]; [by left|].
  destruct Hdata as [(-> & _)|(r & _ & _ & _ & -> & _)]; [by left|].
  right. eexists. split; [|reflexivity]. reflexivity.
Qed.

Lemma loop_body_bfs self queue :
  bfs_inv self queue →
  bfs_inv (loop_body checks arun self queue).1
    (loop_body checks arun self queue).2.
Proof.
  intros [Hsorted Hlevel]. destruct queue as [|[u d] rest]; [done|].
  specialize (Hlevel u d rest eq_refl).
  destruct (loop_body_queue checks arun self u d rest) as (new & Hq & Hnew).
  pose proof (loop_body_pages self u d rest) as Hpages.
  destruct (loop_body checks arun self ((u, d) :: rest)) as [self' queue'].
  simpl in *. subst queue'.
  assert (Forall (λ e, e = d + 1) new.*2) as Hdeep.
  { apply Forall_fmap. eapply Forall_impl; [exact Hnew|]. by intros e [? _]. }
  apply StronglySorted_app in Hsorted as (Hcross & Hdone & Hqueue).
  apply StronglySorted_cons in Hqueue as [Hhead Hrest].
  rewrite Forall_forall in Hhead.
  assert (∀ x, x ∈ rest.*2 → x ≤ d + 1) as Hlevel'.
  { intros x (e & -> & He)%list_elem_of_fmap.
    by apply (proj1 (Forall_forall _ _) Hlevel). }
  assert (∀ x, x ∈ new.*2 → x = d + 1) as Hdeep'.
  { by apply Forall_forall. }
  split.
  - rewrite fmap_app. apply StronglySorted_app_2.
    + intros x1 x2 Hx1 [Hx2|Hx2]%elem_of_app.
      * destruct Hpages as [Heq|(page & Hd & Heq)]; rewrite Heq in Hx1.
        -- apply Hcross; [done|]. by apply list_elem_of_further.
        -- rewrite fmap_app in Hx1.
           apply elem_of_app in Hx1 as [Hx1|Hx1].
           ++ apply Hcross; [done|]. by apply list_elem_of_further.
           ++ apply list_elem_of_singleton in Hx1 as ->. rewrite Hd.
              by apply Hhead.
      * apply Hdeep' in Hx2 as ->.
        assert (x1 ≤ d); [|lia].
        destruct Hpages as [Heq|(page & Hd & Heq)]; rewrite Heq in Hx1.
        -- apply Hcross; [done|]. apply list_elem_of_here.
        -- rewrite fmap_app in Hx1.
           apply elem_of_app in Hx1 as [Hx1|Hx1].
           ++ apply Hcross; [done|]. apply list_elem_of_here.
           ++ apply list_elem_of_singleton in Hx1 as ->. rewrite Hd. lia.
    + destruct Hpages as [->|(page & Hd & ->)]; [done|].
      rewrite fmap_app. apply StronglySorted_app_2; [|done|].
      * intros x1 x2 Hx1 ->%list_elem_of_singleton. rewrite Hd.
        apply Hcross; [done|]. apply list_elem_of_here.
      * repeat constructor.
    + apply StronglySorted_app_2; [|done|by eapply constant_sorted].
      intros x1 x2 Hx1 ->%Hdeep'. by apply Hlevel'.
  - intros u' d' rest' Heq. apply Forall_forall. intros e He.
    assert (d ≤ d') as Hle.
    { destruct rest as [|[u1 d1] rest1].
      - simpl in Heq. destruct new as [|[u1 d1] new1]; [done|].
        injection Heq as -> -> _.
        assert (d' = d + 1); [|lia]. apply Hdeep'. apply list_elem_of_here.
      - injection Heq as -> -> _. apply Hhead. apply list_elem_of_here. }
    assert (e ∈ rest ++ new) as [Hin|Hin]%elem_of_app.
    { rewrite Heq. by apply list_elem_of_further. }
    + assert (e.2 ≤ d + 1); [|lia].
      apply Hlevel'. apply list_elem_of_fmap. by exists e.
    + assert (e.2 = d + 1); [|lia].
      apply Hdeep'. apply list_elem_of_fmap. by exists e.
Qed.

Lemma after_iterations_bfs n self queue :
  bfs_inv self queue →
  bfs_inv (after_iterations checks arun n self queue).1
    (after_iterations checks arun n self queue).2.
Proof.
  revert self queue. induction n as [|n IH]; intros self queue Hinv;
    simpl; [done|].
  destruct (loop_cond self queue); [|done].
  pose proof (loop_body_bfs self queue Hinv) as Hstep.
  destruct (loop_body checks arun self queue) as [self' queue'].
  by apply IH.
Qed.

Lemma init_bfs base depth_limit page_limit self :
  init checks base depth_limit page_limit = Some self →
  bfs_inv self [(base_url self, 0)].
Proof.
  unfold init. destruct (urlparse checks base); [|done].
  intros [= <-]. split; simpl.
  - repeat constructor.
  - by intros u d rest [= _ _ <-].
Qed.

(** X22. The pages are stored in breadth-first order: in the list a run
    returns, as in the list after any number of iterations, the depth
    never decreases from one page to a later one, and no URL waiting in
    the frontier is less deep than a stored page. *)
Theorem pages_in_breadth_first_order base depth_limit page_limit self n :
  init checks base depth_limit page_limit = Some self →
  let now := after_iterations checks arun n self [(base_url self, 0)] in
  StronglySorted Z.le (depth <$> crawled_data now.1)
  ∧ (∀ page e, page ∈ crawled_data now.1 → e ∈ now.2 → depth page ≤ e.2)
  ∧ ∀ fuel final log ret,
      crawl_website checks arun fuel self = Some (final, log, ret) →
      StronglySorted Z.le (depth <$> crawled_data final).
Proof.
  intros Hinit now. pose proof (init_bfs _ _ _ _ Hinit) as Hinv.
  pose proof (after_iterations_bfs n _ _ Hinv) as [Hsorted _].
  fold now in Hsorted.
  apply StronglySorted_app in Hsorted as (Hcross & Hdone & _).
  split; [done|]. split.
  - intros page e Hpage He. apply Hcross; apply list_elem_of_fmap; eauto.
  - intros fuel final log ret. unfold crawl_website.
    destruct (crawl_loop checks arun fuel self _) as [final'|] eqn:Hrun;
      [|done].
    simpl. intros [= <- _ _]. apply crawl_loop_after in Hrun as ->.
    pose proof (after_iterations_bfs fuel _ _ Hinv) as [Hfinal _].
    by apply StronglySorted_app_1_l in Hfinal.
Qed.

End BreadthFirst.

Lemma pages_in_breadth_first_order_witness :
  init lenient Scenario.A 2 10 = Some Scenario.crawler
  ∧ depth <$> crawled_data
                (after_iterations lenient Scenario.site 3 Scenario.crawler
                   [(Scenario.A, 0)]).1
    = [0; 1; 1]
  ∧ StronglySorted Z.le
      (depth <$> crawled_data
                   (after_iterations lenient Scenario.site 3
                      Scenario.crawler [(Scenario.A, 0)]).1).
Proof.
  split; [reflexivity|]. split; [vm_compute; reflexivity|].
  refine (proj1 (pages_in_breadth_first_order lenient Scenario.site
                   Scenario.A 2 10 Scenario.crawler 3 _)).
  reflexivity.
Defined.
